(** * peacepilot-api: the diagnosis endpoint and its generation routine

    A shallow embedding of [src/lib/api.ts] (the fallback record, the
    response coercer, the generation routine and the report wrapper) and of
    [app/api/diagnosis/route.ts] (the cross-origin headers and the OPTIONS
    and POST handlers), together with the parts of the JavaScript platform
    the code relies on: strings as sequences of UTF-16 code units, JSON
    values and [JSON.parse], the two regular expressions of [coerceJson]
    run by a backtracking matcher, [Date.prototype.toISOString],
    [crypto.randomUUID], [fetch] and the console. *)

From Stdlib Require Import List NArith ZArith Bool Lia String Ascii DecimalString.
Import ListNotations.

Set Implicit Arguments.

(* ================================================================== *)
(** * JavaScript strings *)
(* ================================================================== *)

(** A JavaScript string is a finite sequence of 16-bit code units. *)
Definition jsstring := list N.

(** The code unit of an ASCII character, and the string of an ASCII literal. *)
Definition ch (a : ascii) : N := N_of_ascii a.

Definition lit (s : string) : jsstring := map ch (list_ascii_of_string s).

(** A literal in which every apostrophe stands for a double quote; used to
    write JSON texts. *)
Definition qlit (s : string) : jsstring :=
  map (fun c => if N.eqb c 39 then 34%N else c) (lit s).

Definition LF : jsstring := [10%N].

Fixpoint jsstring_eqb (a b : jsstring) : bool :=
  match a, b with
  | [], [] => true
  | x :: a', y :: b' => N.eqb x y && jsstring_eqb a' b'
  | _, _ => false
  end.

(** [strip_prefix p s] is the rest of [s] after its prefix [p], if it has it. *)
Fixpoint strip_prefix (p s : jsstring) : option jsstring :=
  match p with
  | [] => Some s
  | x :: p' =>
      match s with
      | y :: s' => if N.eqb x y then strip_prefix p' s' else None
      | [] => None
      end
  end.

(** White space and line terminators of ECMAScript: what [\s] matches and
    what [String.prototype.trim] removes. *)
Definition is_js_space (c : N) : bool :=
  ((9 <=? c) && (c <=? 13) || (c =? 32) || (c =? 160) || (c =? 5760)
   || (8192 <=? c) && (c <=? 8202) || (c =? 8232) || (c =? 8233)
   || (c =? 8239) || (c =? 8287) || (c =? 12288) || (c =? 65279))%N.

Fixpoint drop_while (p : N -> bool) (s : jsstring) : jsstring :=
  match s with
  | c :: s' => if p c then drop_while p s' else s
  | [] => []
  end.

(** [String.prototype.trim]. *)
Definition trim (s : jsstring) : jsstring :=
  rev (drop_while is_js_space (rev (drop_while is_js_space s))).

(** ASCII lower-casing, as the Headers class applies to header names. *)
Definition lower_unit (c : N) : N :=
  if ((65 <=? c) && (c <=? 90))%N then (c + 32)%N else c.

Definition to_lower (s : jsstring) : jsstring := map lower_unit s.

(** Decimal digits of a natural number, most significant first, padded on
    the left with zeros to [width] digits. *)
Fixpoint digits_pad (width : nat) (n : N) : jsstring :=
  match width with
  | O => []
  | S w => digits_pad w (n / 10) ++ [(48 + n mod 10)%N]
  end.

Definition hex_digit (n : N) : N :=
  if (n <? 10)%N then (48 + n)%N else (87 + n)%N.

(* ================================================================== *)
(** * JavaScript values *)
(* ================================================================== *)

(** A number that came from a decimal literal: (-1)^neg * mant * 10^exp10.
    The IEEE double it denotes is the correctly rounded one; the
    development only needs to know whether that double is zero. *)
Record number := mkNumber { neg : bool; mant : N; exp10 : Z }.

#[warnings="-register-all"]
Inductive value :=
| VUndefined
| VNull
| VBool (b : bool)
| VNumber (d : number)
| VString (s : jsstring)
| VArray (items : list value)
| VObject (members : list (jsstring * value)).

(** The literal rounds to +0 or -0 exactly when its magnitude is at most
    2^-1075, half the least positive double (the tie rounds to even). *)
Definition number_is_zero (d : number) : bool :=
  (N.eqb (mant d) 0
   || (exp10 d <? 0)%Z
      && (Z.of_N (mant d) * 2 ^ 1075 <=? 10 ^ (- exp10 d))%Z).

(** ToBoolean. *)
Definition truthy (v : value) : bool :=
  match v with
  | VUndefined | VNull => false
  | VBool b => b
  | VNumber d => negb (number_is_zero d)
  | VString s => match s with [] => false | _ => true end
  | VArray _ | VObject _ => true
  end.

Definition nullish (v : value) : bool :=
  match v with
  | VUndefined | VNull => true
  | _ => false
  end.

(** [a ?? b]. *)
Definition coalesce (a b : value) : value := if nullish a then b else a.

(** Own properties of an object, as an association list with unique keys. *)
Fixpoint obj_get (m : list (jsstring * value)) (k : jsstring) : value :=
  match m with
  | [] => VUndefined
  | (k', v) :: m' => if jsstring_eqb k' k then v else obj_get m' k
  end.

Fixpoint obj_set (m : list (jsstring * value)) (k : jsstring) (v : value)
  : list (jsstring * value) :=
  match m with
  | [] => [(k, v)]
  | (k', v') :: m' =>
      if jsstring_eqb k' k then (k, v) :: m' else (k', v') :: obj_set m' k v
  end.

(** The property names the program reads.  None of them is a property of
    [Object.prototype], [Array.prototype], [String.prototype],
    [Number.prototype] or [Boolean.prototype], so reading one from a value
    finds an own property or nothing. *)
Inductive prop :=
| P_candidates | P_0 | P_content | P_parts | P_text
| P_prompt | P_summary | P_feelings | P_actionPlan | P_reflectionPrompts
| P_id | P_createdAt | P_report | P_error.

Definition prop_name (p : prop) : jsstring :=
  match p with
  | P_candidates => lit "candidates"
  | P_0 => lit "0"
  | P_content => lit "content"
  | P_parts => lit "parts"
  | P_text => lit "text"
  | P_prompt => lit "prompt"
  | P_summary => lit "summary"
  | P_feelings => lit "feelings"
  | P_actionPlan => lit "actionPlan"
  | P_reflectionPrompts => lit "reflectionPrompts"
  | P_id => lit "id"
  | P_createdAt => lit "createdAt"
  | P_report => lit "report"
  | P_error => lit "error"
  end.

(** [v?.p]: [undefined] on [null] and [undefined]; element 0 of an array and
    the first code unit of a string for the index [0]; an own property of an
    object. *)
Definition get (v : value) (p : prop) : value :=
  match v with
  | VObject m => obj_get m (prop_name p)
  | VArray l =>
      match p, l with
      | P_0, x :: _ => x
      | _, _ => VUndefined
      end
  | VString s =>
      match p, s with
      | P_0, c :: _ => VString [c]
      | _, _ => VUndefined
      end
  | _ => VUndefined
  end.

(* ================================================================== *)
(** * JSON.parse *)
(* ================================================================== *)

(** JSON white space: tab, line feed, carriage return, space. *)
Definition is_json_ws (c : N) : bool :=
  ((c =? 9) || (c =? 10) || (c =? 13) || (c =? 32))%N.

Definition skip_ws (s : jsstring) : jsstring := drop_while is_json_ws s.

Definition is_digit (c : N) : bool := ((48 <=? c) && (c <=? 57))%N.

Definition hex_val (c : N) : option N :=
  if is_digit c then Some (c - 48)%N
  else if ((97 <=? c) && (c <=? 102))%N then Some (c - 87)%N
  else if ((65 <=? c) && (c <=? 70))%N then Some (c - 55)%N
  else None.

Definition hex4 (a b c d : N) : option N :=
  match hex_val a, hex_val b, hex_val c, hex_val d with
  | Some x, Some y, Some z, Some w => Some (((x * 16 + y) * 16 + z) * 16 + w)%N
  | _, _, _, _ => None
  end.

(** A single-character escape after a backslash. *)
Definition escape_unit (e : N) : option N :=
  if (e =? 34)%N then Some 34%N          (* quote *)
  else if (e =? 92)%N then Some 92%N     (* backslash *)
  else if (e =? 47)%N then Some 47%N     (* slash *)
  else if (e =? 98)%N then Some 8%N      (* b *)
  else if (e =? 102)%N then Some 12%N    (* f *)
  else if (e =? 110)%N then Some 10%N    (* n *)
  else if (e =? 114)%N then Some 13%N    (* r *)
  else if (e =? 116)%N then Some 9%N     (* t *)
  else None.

(** The characters of a string literal after its opening quote, up to and
    including the closing quote. *)
Fixpoint parse_string (s : jsstring) : option (jsstring * jsstring) :=
  match s with
  | [] => None
  | c :: r =>
      if (c =? 34)%N then Some ([], r)
      else if (c =? 92)%N then
        match r with
        | [] => None
        | e :: r1 =>
            if (e =? 117)%N then
              match r1 with
              | h1 :: h2 :: h3 :: h4 :: r2 =>
                  match hex4 h1 h2 h3 h4 with
                  | Some u =>
                      match parse_string r2 with
                      | Some (str, rest) => Some (u :: str, rest)
                      | None => None
                      end
                  | None => None
                  end
              | _ => None
              end
            else
              match escape_unit e with
              | Some u =>
                  match parse_string r1 with
                  | Some (str, rest) => Some (u :: str, rest)
                  | None => None
                  end
              | None => None
              end
        end
      else if (c <? 32)%N then None
      else
        match parse_string r with
        | Some (str, rest) => Some (c :: str, rest)
        | None => None
        end
  end.

(** A maximal run of decimal digits. *)
Fixpoint take_digits (s : jsstring) : jsstring * jsstring :=
  match s with
  | c :: r =>
      if is_digit c then let (ds, rest) := take_digits r in (c :: ds, rest)
      else ([], s)
  | [] => ([], [])
  end.

Fixpoint digits_value (acc : N) (ds : jsstring) : N :=
  match ds with
  | [] => acc
  | c :: ds' => digits_value (acc * 10 + (c - 48))%N ds'
  end.

(** Integer part: a single 0, or a non-zero digit followed by digits. *)
Definition parse_int_part (s : jsstring) : option (jsstring * jsstring) :=
  match s with
  | c :: r =>
      if (c =? 48)%N then Some ([c], r)
      else if is_digit c then Some (take_digits s)
      else None
  | [] => None
  end.

(** Fraction: nothing, or a dot followed by at least one digit. *)
Definition parse_frac_part (s : jsstring) : option (jsstring * jsstring) :=
  match s with
  | c :: r =>
      if (c =? 46)%N then
        match take_digits r with
        | ([], _) => None
        | (ds, rest) => Some (ds, rest)
        end
      else Some ([], s)
  | [] => Some ([], [])
  end.

(** Exponent: nothing, or e/E, an optional sign and at least one digit. *)
Definition parse_exp_part (s : jsstring) : option (Z * jsstring) :=
  match s with
  | c :: r =>
      if ((c =? 101) || (c =? 69))%N then
        let (sign, r1) :=
          match r with
          | x :: r' =>
              if (x =? 45)%N then ((-1)%Z, r')
              else if (x =? 43)%N then (1%Z, r')
              else (1%Z, r)
          | [] => (1%Z, r)
          end in
        match take_digits r1 with
        | ([], _) => None
        | (ds, rest) => Some ((sign * Z.of_N (digits_value 0 ds))%Z, rest)
        end
      else Some (0%Z, s)
  | [] => Some (0%Z, [])
  end.

Definition parse_number (s : jsstring) : option (number * jsstring) :=
  let (sg, s1) :=
    match s with
    | c :: r => if (c =? 45)%N then (true, r) else (false, s)
    | [] => (false, s)
    end in
  match parse_int_part s1 with
  | None => None
  | Some (ip, s2) =>
      match parse_frac_part s2 with
      | None => None
      | Some (fp, s3) =>
          match parse_exp_part s3 with
          | None => None
          | Some (e, s4) =>
              Some (mkNumber sg (digits_value 0 (ip ++ fp))
                      (e - Z.of_nat (List.length fp)), s4)
          end
      end
  end.

(** A value that is not an object or an array. *)
Definition parse_scalar (s : jsstring) : option (value * jsstring) :=
  match s with
  | c :: r =>
      if (c =? 34)%N then
        match parse_string r with
        | Some (str, rest) => Some (VString str, rest)
        | None => None
        end
      else
        match strip_prefix (lit "true") s with
        | Some rest => Some (VBool true, rest)
        | None =>
        match strip_prefix (lit "false") s with
        | Some rest => Some (VBool false, rest)
        | None =>
        match strip_prefix (lit "null") s with
        | Some rest => Some (VNull, rest)
        | None =>
        match parse_number s with
        | Some (d, rest) => Some (VNumber d, rest)
        | None => None
        end end end end
  | [] => None
  end.

(** Recursive descent over the JSON grammar.  [fuel] bounds the number of
    nested calls; [JSON_parse] below supplies enough of it (lemma
    [parse_value_fuel]). *)
Fixpoint parse_value (fuel : nat) (s : jsstring) {struct fuel}
  : option (value * jsstring) :=
  match fuel with
  | O => None
  | S f =>
      match skip_ws s with
      | c :: r =>
          if (c =? 123)%N then
            match skip_ws r with
            | c' :: r' =>
                if (c' =? 125)%N then Some (VObject [], r')
                else parse_members f r []
            | [] => None
            end
          else if (c =? 91)%N then
            match skip_ws r with
            | c' :: r' =>
                if (c' =? 93)%N then Some (VArray [], r')
                else parse_elements f r []
            | [] => None
            end
          else parse_scalar (c :: r)
      | [] => None
      end
  end

with parse_elements (fuel : nat) (s : jsstring) (acc : list value)
  {struct fuel} : option (value * jsstring) :=
  match fuel with
  | O => None
  | S f =>
      match parse_value f s with
      | Some (v, r) =>
          match skip_ws r with
          | c :: r' =>
              if (c =? 44)%N then parse_elements f r' (acc ++ [v])
              else if (c =? 93)%N then Some (VArray (acc ++ [v]), r')
              else None
          | [] => None
          end
      | None => None
      end
  end

with parse_members (fuel : nat) (s : jsstring) (acc : list (jsstring * value))
  {struct fuel} : option (value * jsstring) :=
  match fuel with
  | O => None
  | S f =>
      match skip_ws s with
      | c :: r =>
          if (c =? 34)%N then
            match parse_string r with
            | Some (k, r1) =>
                match skip_ws r1 with
                | c1 :: r2 =>
                    if (c1 =? 58)%N then
                      match parse_value f r2 with
                      | Some (v, r3) =>
                          match skip_ws r3 with
                          | c3 :: r4 =>
                              if (c3 =? 44)%N
                              then parse_members f r4 (obj_set acc k v)
                              else if (c3 =? 125)%N
                              then Some (VObject (obj_set acc k v), r4)
                              else None
                          | [] => None
                          end
                      | None => None
                      end
                    else None
                | [] => None
                end
            | None => None
            end
          else None
      | [] => None
      end
  end.

(** [JSON.parse]: one value surrounded by white space; [None] stands for the
    SyntaxError it throws. *)
Definition JSON_parse (s : jsstring) : option value :=
  match parse_value (2 * List.length s + 1) s with
  | Some (v, rest) =>
      match skip_ws rest with
      | [] => Some v
      | _ :: _ => None
      end
  | None => None
  end.


(* ================================================================== *)
(** * Regular expressions *)
(* ================================================================== *)

(** The fragment of ECMAScript regular expressions the program uses: code
    units, character classes, concatenation, a greedy optional part, greedy
    and lazy repetition of a class, and one capturing group. *)
Inductive regex :=
| REps
| RChar (c : N)
| RSeq (r1 r2 : regex)
| ROpt (r : regex)
| RStar (p : N -> bool)
| RStarLazy (p : N -> bool)
| RGroup (r : regex).

(** The regular expression of a literal string. *)
Fixpoint rlit (s : jsstring) : regex :=
  match s with
  | [] => REps
  | c :: s' => RSeq (RChar c) (rlit s')
  end.

Section Matcher.
Variable R : Type.

(** A continuation receives the input left after a match and the text
    captured so far. *)
Definition cont := jsstring -> option jsstring -> option R.

(** [p*]: as many as possible first, giving back one at a time. *)
Fixpoint star_greedy (p : N -> bool) (s : jsstring) (cap : option jsstring)
  (k : cont) : option R :=
  match s with
  | c :: s' =>
      if p c then
        match star_greedy p s' cap k with
        | Some x => Some x
        | None => k s cap
        end
      else k s cap
  | [] => k [] cap
  end.

(** [p*?]: as few as possible first, taking one more at a time. *)
Fixpoint star_lazy (p : N -> bool) (s : jsstring) (cap : option jsstring)
  (k : cont) : option R :=
  match k s cap with
  | Some x => Some x
  | None =>
      match s with
      | c :: s' => if p c then star_lazy p s' cap k else None
      | [] => None
      end
  end.

(** Backtracking matcher: the first way, in priority order, to match [r]
    at the start of [s] so that the continuation succeeds. *)
Fixpoint rmatch (r : regex) (s : jsstring) (cap : option jsstring)
  (k : cont) : option R :=
  match r with
  | REps => k s cap
  | RChar c =>
      match s with
      | x :: s' => if (x =? c)%N then k s' cap else None
      | [] => None
      end
  | RSeq r1 r2 => rmatch r1 s cap (fun s1 cap1 => rmatch r2 s1 cap1 k)
  | ROpt r1 =>
      match rmatch r1 s cap k with
      | Some x => Some x
      | None => k s cap
      end
  | RStar p => star_greedy p s cap k
  | RStarLazy p => star_lazy p s cap k
  | RGroup r1 =>
      rmatch r1 s cap
        (fun s1 _ => k s1 (Some (firstn (List.length s - List.length s1) s)))
  end.
End Matcher.

(** The result of a successful match: the matched text and group 1. *)
Record match_result := mkMatch {
  matched : jsstring;
  group1 : option jsstring
}.

(** A match anchored at the start of [s]. *)
Definition match_here (r : regex) (s : jsstring) : option match_result :=
  rmatch r s None
    (fun rest cap =>
       Some (mkMatch (firstn (List.length s - List.length rest) s) cap)).

(** [String.prototype.match] with a regular expression without flags: the
    match at the leftmost position that has one. *)
Fixpoint str_match (r : regex) (s : jsstring) : option match_result :=
  match match_here r s with
  | Some m => Some m
  | None =>
      match s with
      | _ :: s' => str_match r s'
      | [] => None
      end
  end.

Definition any_unit (c : N) : bool := true.

Definition backticks : jsstring := lit "```".

(** The parts of the first regular expression: the captured group
    [(\{[\s\S]*?\})] and the closing [\s*```]. *)
Definition re_fence_body : regex :=
  RGroup (RSeq (RChar (ch "{")) (RSeq (RStarLazy any_unit) (RChar (ch "}")))).

Definition re_fence_close : regex :=
  RSeq (RStar is_js_space) (rlit backticks).

(** [/```(?:json)?\s*(\{[\s\S]*?\})\s*```/] *)
Definition re_code_block : regex :=
  RSeq (rlit backticks)
    (RSeq (ROpt (rlit (lit "json")))
       (RSeq (RStar is_js_space) (RSeq re_fence_body re_fence_close))).

(** [/\{[\s\S]*\}/] *)
Definition re_object : regex :=
  RSeq (RChar (ch "{")) (RSeq (RStar any_unit) (RChar (ch "}"))).

(* ================================================================== *)
(** * Date.prototype.toISOString and crypto.randomUUID *)
(* ================================================================== *)

Local Open Scope Z_scope.

(** Year, month and day of the proleptic Gregorian calendar for a number of
    days since 1970-01-01. *)
Definition civil_from_days (days : Z) : Z * Z * Z :=
  let z := days + 719468 in
  let era := z / 146097 in
  let doe := z - era * 146097 in
  let yoe := (doe - doe / 1460 + doe / 36524 - doe / 146096) / 365 in
  let doy := doe - (365 * yoe + yoe / 4 - yoe / 100) in
  let mp := (5 * doy + 2) / 153 in
  let d := doy - (153 * mp + 2) / 5 + 1 in
  let m := if mp <? 10 then mp + 3 else mp - 9 in
  let y := yoe + era * 400 + (if m <=? 2 then 1 else 0) in
  (y, m, d).

Definition pad (width : nat) (n : Z) : jsstring := digits_pad width (Z.to_N n).

(** Four digits for the years 0 to 9999, a sign and six digits otherwise. *)
Definition iso_year (y : Z) : jsstring :=
  if (0 <=? y) && (y <=? 9999) then pad 4 y
  else (if y <? 0 then lit "-" else lit "+") ++ pad 6 (Z.abs y).

(** [new Date(t).toISOString()] for a time value [t] in milliseconds since
    the epoch: YYYY-MM-DDTHH:mm:ss.sssZ. *)
Definition toISOString (t : Z) : jsstring :=
  let '(y, m, d) := civil_from_days (t / 86400000) in
  let ms := t mod 86400000 in
  iso_year y ++ lit "-" ++ pad 2 m ++ lit "-" ++ pad 2 d ++ lit "T"
  ++ pad 2 (ms / 3600000) ++ lit ":" ++ pad 2 (ms / 60000 mod 60) ++ lit ":"
  ++ pad 2 (ms / 1000 mod 60) ++ lit "." ++ pad 3 (ms mod 1000) ++ lit "Z".

Local Close Scope Z_scope.

Definition hex_byte (b : N) : jsstring :=
  [hex_digit (b / 16 mod 16); hex_digit (b mod 16)]%N.

(** Byte [i] (0 is the most significant) of a 128-bit number. *)
Definition byte_of (r : N) (i : nat) : N :=
  (N.shiftr r (8 * (15 - N.of_nat i)) mod 256)%N.

(** A version 4 UUID from 128 random bits: the version nibble is 4, the
    variant bits are 10, and the text is 8-4-4-4-12 lower-case hex digits. *)
Definition uuid_byte (r : N) (i : nat) : N :=
  let b := byte_of r i in
  if Nat.eqb i 6 then N.lor (N.land b 15) 64
  else if Nat.eqb i 8 then N.lor (N.land b 63) 128
  else b.

Definition uuid_hex (r : N) (from count : nat) : jsstring :=
  flat_map (fun i => hex_byte (uuid_byte r i)) (seq from count).

Definition uuid_of (r : N) : jsstring :=
  uuid_hex r 0 4 ++ lit "-" ++ uuid_hex r 4 2 ++ lit "-" ++ uuid_hex r 6 2
  ++ lit "-" ++ uuid_hex r 8 2 ++ lit "-" ++ uuid_hex r 10 6.

(* ================================================================== *)
(** * The environment: process, clock, randomness, network, console *)
(* ================================================================== *)

(** What [fetch] is called with.  The body is kept as the value handed to
    [JSON.stringify]. *)
Record fetch_request := mkFetchRequest {
  fr_url : jsstring;
  fr_method : jsstring;
  fr_headers : list (jsstring * jsstring);
  fr_body : value;
  fr_no_store : bool
}.

(** What comes back: a status and the body text, [None] when reading the
    body fails. *)
Record http_reply := mkReply {
  reply_status : Z;
  reply_body : option jsstring
}.

(** The outcome of one exchange: the time it took and the reply, [None] for
    a failure of the transport. *)
Record fetch_result := mkFetchResult {
  elapsed : Z;
  reply : option http_reply
}.

Inductive console_level := Log | Warn | Error.

(** The call sites of the console in the functions modelled below. *)
Inductive console_site :=
| Site_code_block_parse_failed
| Site_object_parse_failed
| Site_no_api_key
| Site_gemini_api_error
| Site_no_text
| Site_parse_failed_raw_text
| Site_parse_failed_parsed
| Site_gemini_error
| Site_error_message
| Site_error_stack
| Site_report_fetch_error
| Site_options_preflight
| Site_post_request
| Site_processing_prompt
| Site_diagnosis_api_error.

Inductive event :=
| EvConsole (level : console_level) (site : console_site)
| EvFetch (req : fetch_request).

Record World := mkWorld {
  env_GEMINI_API_KEY : option jsstring;
  env_NEXT_PUBLIC_VERCEL_API_URL : option jsstring;
  has_window : bool;
  clock : Z;
  random : nat -> N;
  draws : nat;
  network : nat -> fetch_request -> fetch_result;
  exchanges : nat;
  trace : list event
}.

Inductive exn :=
| TypeError
| SyntaxError
| FetchFailed
| BodyReadFailed
| GeminiRequestFailed (status : Z) (errorText : jsstring)
| NoTextContent
| UnableToGenerateReport (status : Z) (errorText : jsstring).

Inductive outcome (A : Type) :=
| Ok (a : A)
| Throw (e : exn).
Arguments Ok {A} a.
Arguments Throw {A} e.

(** Computations that read and change the environment and may throw. *)
Definition M (A : Type) := World -> outcome A * World.

Definition ret {A} (a : A) : M A := fun w => (Ok a, w).

Definition throw {A} (e : exn) : M A := fun w => (Throw e, w).

Definition bind {A B} (m : M A) (f : A -> M B) : M B :=
  fun w =>
    match m w with
    | (Ok a, w') => f a w'
    | (Throw e, w') => (Throw e, w')
    end.

Definition try_catch {A} (m : M A) (handler : exn -> M A) : M A :=
  fun w =>
    match m w with
    | (Ok a, w') => (Ok a, w')
    | (Throw e, w') => handler e w'
    end.

Declare Scope js_scope.
Delimit Scope js_scope with js.
Notation "x <- m ;; k" := (bind m (fun x => k))
  (at level 61, m at next level, right associativity) : js_scope.
Notation "m ;;; k" := (bind m (fun _ => k))
  (at level 61, right associativity) : js_scope.
Local Open Scope js_scope.

(** The world with another trace. *)
Definition with_trace (tr : list event) (w : World) : World :=
  mkWorld (env_GEMINI_API_KEY w) (env_NEXT_PUBLIC_VERCEL_API_URL w)
    (has_window w) (clock w) (random w) (draws w) (network w) (exchanges w) tr.

Definition add_event (e : event) (w : World) : World :=
  with_trace (trace w ++ [e]) w.

Definition console (level : console_level) (site : console_site) : M unit :=
  fun w => (Ok tt, add_event (EvConsole level site) w).

(** [new Date().toISOString()]. *)
Definition Date_now_iso : M jsstring :=
  fun w => (Ok (toISOString (clock w)), w).

(** [crypto.randomUUID()]: the next 128 random bits, formatted. *)
Definition randomUUID : M jsstring :=
  fun w =>
    (Ok (uuid_of (random w (draws w))),
     mkWorld (env_GEMINI_API_KEY w) (env_NEXT_PUBLIC_VERCEL_API_URL w)
       (has_window w) (clock w) (random w) (S (draws w)) (network w)
       (exchanges w) (trace w)).

(** [await fetch(url, init)]: the exchange is recorded, time passes, and the
    promise rejects when the transport fails. *)
Definition fetch (req : fetch_request) : M http_reply :=
  fun w =>
    let res := network w (exchanges w) req in
    let w' :=
      mkWorld (env_GEMINI_API_KEY w) (env_NEXT_PUBLIC_VERCEL_API_URL w)
        (has_window w) (clock w + elapsed res)%Z (random w) (draws w)
        (network w) (S (exchanges w)) (trace w ++ [EvFetch req]) in
    match reply res with
    | Some r => (Ok r, w')
    | None => (Throw FetchFailed, w')
    end.

(** [response.ok] *)
Definition reply_ok (r : http_reply) : bool :=
  ((200 <=? reply_status r) && (reply_status r <=? 299))%Z.

(** [await response.text()] *)
Definition reply_text (r : http_reply) : M jsstring :=
  match reply_body r with
  | Some t => ret t
  | None => throw BodyReadFailed
  end.

(** [await response.json()] *)
Definition reply_json (r : http_reply) : M value :=
  match reply_body r with
  | Some t =>
      match JSON_parse t with
      | Some v => ret v
      | None => throw SyntaxError
      end
  | None => throw BodyReadFailed
  end.

(* ================================================================== *)
(** * src/lib/api.ts *)
(* ================================================================== *)

(** The fields of a ClarityEntry.  The type declares strings and arrays of
    strings; the four content fields hold whatever JSON value the upstream
    text supplied, so they are values here.  The order of the properties is
    not modelled. *)
Record ClarityEntry := mkEntry {
  id : jsstring;
  prompt : jsstring;
  summary : value;
  feelings : value;
  actionPlan : value;
  reflectionPrompts : value;
  createdAt : jsstring
}.

Definition GEMINI_MODEL : jsstring := lit "gemini-2.5-flash-lite".

Record content_fields := mkContent {
  fb_summary : value;
  fb_feelings : value;
  fb_actionPlan : value;
  fb_reflectionPrompts : value
}.

Definition strings (l : list string) : value :=
  VArray (map (fun s => VString (lit s)) l).

Definition fallbackEntry : content_fields :=
  mkContent
    (VString (lit "It sounds like you're carrying a lot right now. The core issue is juggling expectations and feeling unsure how to prioritise yourself."))
    (strings
       [ "Overwhelm from competing demands";
         "Guilt for not meeting everyone's expectations";
         "Anxiety about making the wrong call" ]%string)
    (strings
       [ "Name your top three priorities for this week and schedule them first.";
         "Communicate one clear boundary to someone close to reduce pressure.";
         "Break your problem into a next tiny step you can do today (15 minutes).";
         "Plan a short decompression ritual (walk, breathwork, or journaling) daily." ]%string)
    (strings
       [ "What do I need most right now, and what's one way to honour it?";
         "Where am I saying yes when I really mean no?";
         "If I were advising a friend, what next step would I suggest?" ]%string).

(** [{ ...fallbackEntry, prompt, createdAt: now, id }] *)
Definition fallback_entry (prompt now id : jsstring) : ClarityEntry :=
  mkEntry id prompt (fb_summary fallbackEntry) (fb_feelings fallbackEntry)
    (fb_actionPlan fallbackEntry) (fb_reflectionPrompts fallbackEntry) now.

(** [JSON.parse(x)] for a captured group or a match, [None] when it throws;
    an undefined argument is the text "undefined", which does not parse. *)
Definition parse_opt (x : option jsstring) : option value :=
  match x with
  | Some t => JSON_parse t
  | None => None
  end.

(** The second half of [coerceJson]: the JSON object found directly. *)
Definition coerce_direct (content : jsstring) : M value :=
  match str_match re_object content with
  | None => ret VNull
  | Some jsonMatch =>
      match JSON_parse (matched jsonMatch) with
      | Some v => ret v
      | None => console Warn Site_object_parse_failed ;;; ret VNull
      end
  end.

(** [coerceJson(content)].  A truthy argument that is not a string has no
    callable [match], so the call throws a TypeError. *)
Definition coerceJson (content : value) : M value :=
  if negb (truthy content) then ret VNull
  else
    match content with
    | VString text =>
        match str_match re_code_block text with
        | Some codeBlockMatch =>
            match parse_opt (group1 codeBlockMatch) with
            | Some v => ret v
            | None =>
                console Warn Site_code_block_parse_failed ;;;
                coerce_direct text
            end
        | None => coerce_direct text
        end
    | _ => throw TypeError
    end.

Definition num (m : N) (e : Z) : value := VNumber (mkNumber false m e).

Definition instructions : jsstring :=
  LF ++ lit "You are ClarityPath, an empathetic personal growth coach."
  ++ LF ++ lit "Provide a concise JSON response with the following keys:"
  ++ LF ++ lit "- summary: short explanation of the core issue"
  ++ LF ++ lit "- feelings: array of 3-6 feelings the person might experience"
  ++ LF ++ lit "- actionPlan: array of 4-6 ordered steps that are realistic"
  ++ LF ++ lit "- reflectionPrompts: array of 3-4 short journal prompts"
  ++ LF
  ++ LF ++ lit "Keep the tone warm, practical, and specific. User input: ".

Definition gemini_url (key : jsstring) : jsstring :=
  lit "https://generativelanguage.googleapis.com/v1beta/models/"
  ++ GEMINI_MODEL ++ lit ":generateContent?key=" ++ key.

Definition gemini_body (prompt : jsstring) : value :=
  VObject
    [ (lit "contents",
       VArray
         [ VObject
             [ (lit "role", VString (lit "user"));
               (lit "parts",
                VArray
                  [ VObject
                      [ (lit "text",
                         VString (trim (instructions ++ prompt ++ LF))) ] ]) ] ]);
      (lit "generationConfig",
       VObject
         [ (lit "temperature", num 6 (-1));
           (lit "topP", num 8 (-1));
           (lit "responseMimeType", VString (lit "application/json")) ]) ].

Definition json_headers : list (jsstring * jsstring) :=
  [ (lit "Content-Type", lit "application/json") ].

Definition gemini_request (key prompt : jsstring) : fetch_request :=
  mkFetchRequest (gemini_url key) (lit "POST") json_headers
    (gemini_body prompt) true.

(** [json?.candidates?.[0]?.content?.parts?.[0]?.text ?? ""] *)
Definition completion_text (json : value) : value :=
  coalesce
    (get (get (get (get (get (get json P_candidates) P_0) P_content) P_parts)
            P_0) P_text)
    (VString []).

(** The entry returned at the end of the [try] block: the fields of
    [parsed] merged over the fallback record. *)
Definition merged_entry (uuid prompt now : jsstring) (parsed : value)
  : ClarityEntry :=
  mkEntry uuid prompt
    (coalesce (get parsed P_summary) (fb_summary fallbackEntry))
    (coalesce (get parsed P_feelings) (fb_feelings fallbackEntry))
    (coalesce (get parsed P_actionPlan) (fb_actionPlan fallbackEntry))
    (coalesce (get parsed P_reflectionPrompts)
       (fb_reflectionPrompts fallbackEntry))
    now.

(** The body of the [try] block of [runClarityOnServer]. *)
Definition generate (key prompt now : jsstring) : M ClarityEntry :=
  response <- fetch (gemini_request key prompt) ;;
  (if negb (reply_ok response) then
     errorText <- reply_text response ;;
     console Error Site_gemini_api_error ;;;
     throw (GeminiRequestFailed (reply_status response) errorText)
   else ret tt) ;;;
  json <- reply_json response ;;
  let text := completion_text json in
  (if negb (truthy text) then
     console Error Site_no_text ;;; throw NoTextContent
   else ret tt) ;;;
  parsed <- coerceJson text ;;
  (if negb (truthy parsed) || negb (truthy (get parsed P_summary)) then
     console Warn Site_parse_failed_raw_text ;;;
     console Warn Site_parse_failed_parsed
   else ret tt) ;;;
  uuid <- randomUUID ;;
  ret (merged_entry uuid prompt now parsed).

(** The [catch] block of [runClarityOnServer]; everything thrown in the
    [try] block is an instance of Error. *)
Definition generate_failed (prompt now : jsstring) (error : exn)
  : M ClarityEntry :=
  console Error Site_gemini_error ;;;
  console Error Site_error_message ;;;
  console Error Site_error_stack ;;;
  uuid <- randomUUID ;;
  ret (fallback_entry prompt now uuid).

(** [!key] for [process.env.GEMINI_API_KEY]. *)
Definition no_key (key : option jsstring) : bool :=
  match key with
  | None | Some [] => true
  | Some (_ :: _) => false
  end.

Definition runClarityOnServer (prompt : jsstring) : M ClarityEntry :=
  fun w =>
    let key := env_GEMINI_API_KEY w in
    (now <- Date_now_iso ;;
     match key with
     | Some (c :: k) =>                              (* key is truthy *)
         try_catch (generate (c :: k) prompt now) (generate_failed prompt now)
     | _ =>                                          (* !key *)
         console Warn Site_no_api_key ;;;
         uuid <- randomUUID ;;
         ret (fallback_entry prompt now uuid)
     end) w.

(** The entry as the object it is. *)
Definition entry_object (e : ClarityEntry) : list (jsstring * value) :=
  [ (prop_name P_id, VString (id e));
    (prop_name P_prompt, VString (prompt e));
    (prop_name P_createdAt, VString (createdAt e));
    (prop_name P_summary, summary e);
    (prop_name P_feelings, feelings e);
    (prop_name P_actionPlan, actionPlan e);
    (prop_name P_reflectionPrompts, reflectionPrompts e) ].

Definition canned_report : value :=
  VString (lit "This is a lightweight summary you can share. Focus on one next action, and check in with yourself tomorrow to review how it felt.").

Definition diagnosis_path : jsstring := lit "/api/diagnosis".

(** [process.env.NEXT_PUBLIC_VERCEL_API_URL ? `${...}/api/diagnosis` : "/api/diagnosis"] *)
Definition api_url (w : World) : jsstring :=
  match env_NEXT_PUBLIC_VERCEL_API_URL w with
  | Some (c :: base) => (c :: base) ++ diagnosis_path
  | _ => diagnosis_path
  end.

Definition endpoint_request (url prompt : jsstring) : fetch_request :=
  mkFetchRequest url (lit "POST") json_headers
    (VObject [ (prop_name P_prompt, VString prompt) ]) false.

(** The decimal name of an array index. *)
Definition index_name (i : nat) : jsstring :=
  lit (NilEmpty.string_of_uint (Nat.to_uint i)).

Fixpoint indexed (i : nat) (l : list value) : list (jsstring * value) :=
  match l with
  | [] => []
  | x :: l' => (index_name i, x) :: indexed (S i) l'
  end.

(** The own enumerable properties [{ ...data }] copies. *)
Definition spread (data : value) : list (jsstring * value) :=
  match data with
  | VObject m => m
  | VArray l => indexed 0 l
  | VString s => indexed 0 (map (fun c => VString [c]) s)
  | _ => []
  end.

(** [data.summary]: a TypeError on [null] and [undefined]. *)
Definition member (data : value) (p : prop) : M value :=
  if nullish data then throw TypeError else ret (get data p).

(** The browser half of [generateReport]. *)
Definition report_from_endpoint (prompt : jsstring) : M value :=
  try_catch
    (fun w =>
       (res <- fetch (endpoint_request (api_url w) prompt) ;;
        (if negb (reply_ok res) then
           errorText <-
             try_catch (reply_text res) (fun _ => ret (lit "Unknown error")) ;;
           throw (UnableToGenerateReport (reply_status res) errorText)
         else ret tt) ;;;
        data <- reply_json res ;;
        s <- member data P_summary ;;
        ret (VObject
               (obj_set (spread data) (prop_name P_report)
                  (coalesce s canned_report)))) w)
    (fun error => console Error Site_report_fetch_error ;;; throw error).

Definition generateReport (prompt : jsstring) : M value :=
  fun w =>
    if has_window w then report_from_endpoint prompt w
    else
      (entry <- runClarityOnServer prompt ;;
       ret (VObject
              (obj_set (entry_object entry) (prop_name P_report)
                 (coalesce (summary entry) canned_report)))) w.

(* ================================================================== *)
(** * app/api/diagnosis/route.ts *)
(* ================================================================== *)

Record NextRequest := mkRequest {
  req_origin : option jsstring;     (* request.headers.get("origin") *)
  req_body : jsstring               (* the text of the body *)
}.

Record NextResponse := mkResponse {
  status : Z;
  headers : list (jsstring * jsstring);
  body : option value
}.

(** [Headers.prototype.set] and [get]: names are compared in lower case and
    a name is held once. *)
Fixpoint header_put (h : list (jsstring * jsstring)) (name v : jsstring)
  : list (jsstring * jsstring) :=
  match h with
  | [] => [(name, v)]
  | (n, v') :: h' =>
      if jsstring_eqb n name then (name, v) :: h'
      else (n, v') :: header_put h' name v
  end.

Definition headers_set (h : list (jsstring * jsstring)) (name v : jsstring) :=
  header_put h (to_lower name) v.

Fixpoint header_find (h : list (jsstring * jsstring)) (name : jsstring)
  : option jsstring :=
  match h with
  | [] => None
  | (n, v) :: h' => if jsstring_eqb n name then Some v else header_find h' name
  end.

Definition headers_get (h : list (jsstring * jsstring)) (name : jsstring) :=
  header_find h (to_lower name).

Definition set_header (r : NextResponse) (name v : jsstring) : NextResponse :=
  mkResponse (status r) (headers_set (headers r) name v) (body r).

(** [new NextResponse(null, { status })] *)
Definition empty_response (st : Z) : NextResponse := mkResponse st [] None.

(** [NextResponse.json(v, { status })] *)
Definition json_response (v : value) (st : Z) : NextResponse :=
  mkResponse st (headers_set [] (lit "content-type") (lit "application/json"))
    (Some v).

Definition allowedOrigins : list jsstring :=
  [ lit "http://localhost:3000";
    lit "http://localhost:5173";
    lit "https://peacepilot-ai.web.app";
    lit "https://peacepilot-ai.web.app/" ].

(** [Array.prototype.includes] on strings. *)
Definition includes (l : list jsstring) (x : jsstring) : bool :=
  existsb (jsstring_eqb x) l.

Definition ACAO := lit "Access-Control-Allow-Origin".
Definition ACAC := lit "Access-Control-Allow-Credentials".
Definition ACAM := lit "Access-Control-Allow-Methods".
Definition ACAH := lit "Access-Control-Allow-Headers".
Definition ACMA := lit "Access-Control-Max-Age".

(** [origin && allowedOrigins.includes(origin)] *)
Definition origin_allowed (origin : option jsstring) : bool :=
  match origin with
  | Some (c :: o) => includes allowedOrigins (c :: o)
  | _ => false
  end.

(** [allowedOrigins[0] || "*"] *)
Definition default_origin : jsstring :=
  match allowedOrigins with
  | (c :: o) :: _ => c :: o
  | _ => lit "*"
  end.

Definition setCorsHeaders (response : NextResponse) (origin : option jsstring)
  : NextResponse :=
  let r1 :=
    match origin with
    | Some o =>
        if origin_allowed origin
        then set_header (set_header response ACAO o) ACAC (lit "true")
        else set_header response ACAO default_origin
    | None => set_header response ACAO default_origin
    end in
  set_header
    (set_header (set_header r1 ACAM (lit "POST, OPTIONS"))
       ACAH (lit "Content-Type, Authorization, X-Requested-With"))
    ACMA (lit "86400").

Definition OPTIONS (request : NextRequest) : M NextResponse :=
  let origin := req_origin request in
  console Log Site_options_preflight ;;;
  ret (setCorsHeaders (empty_response 200) origin).

Definition error_payload (msg : string) : value :=
  VObject [ (prop_name P_error, VString (lit msg)) ].

(** [await request.json()] *)
Definition request_json (request : NextRequest) : M value :=
  match JSON_parse (req_body request) with
  | Some v => ret v
  | None => throw SyntaxError
  end.

(** The rest of the [try] block once [prompt] is truthy.  Evaluating
    [prompt.substring(0, 50)] throws a TypeError unless the prompt is a
    string, before anything is logged. *)
Definition diagnose (prompt : value) (origin : option jsstring)
  : M NextResponse :=
  match prompt with
  | VString text =>
      console Log Site_processing_prompt ;;;
      data <- runClarityOnServer text ;;
      ret (setCorsHeaders
             (json_response (VObject (entry_object data)) 200) origin)
  | _ => throw TypeError
  end.

Definition POST (request : NextRequest) : M NextResponse :=
  let origin := req_origin request in
  console Log Site_post_request ;;;
  try_catch
    (body <- request_json request ;;
     let prompt := get body P_prompt in
     if negb (truthy prompt) then
       ret (setCorsHeaders
              (json_response (error_payload "Prompt is required") 400) origin)
     else diagnose prompt origin)
    (fun error =>
       console Error Site_diagnosis_api_error ;;;
       ret (setCorsHeaders
              (json_response (error_payload "Failed to generate diagnosis") 500)
              origin)).

(** Whether a value is an object. *)
Definition is_object (v : value) : bool :=
  match v with
  | VObject _ => true
  | _ => false
  end.


(* ================================================================== *)
(** * The response coercer as the specification describes it *)
(* ================================================================== *)

(** The suffix of [s] that starts at the first occurrence of [c]. *)
Fixpoint from_first (c : N) (s : jsstring) : option jsstring :=
  match s with
  | [] => None
  | x :: s' => if (x =? c)%N then Some s else from_first c s'
  end.

(** The prefix of [s] that ends at the last occurrence of [c]. *)
Fixpoint upto_last (c : N) (s : jsstring) : option jsstring :=
  match s with
  | [] => None
  | x :: s' =>
      match upto_last c s' with
      | Some p => Some (x :: p)
      | None => if (x =? c)%N then Some [x] else None
      end
  end.

(** The substring from the first opening brace to the last closing brace. *)
Definition brace_span (s : jsstring) : option jsstring :=
  match from_first (ch "{") s with
  | Some (b :: t) =>
      match upto_last (ch "}") t with
      | Some body => Some (b :: body)
      | None => None
      end
  | _ => None
  end.

(** Whether [s] is white space followed by the three closing backticks. *)
Definition closes_fence (s : jsstring) : bool :=
  match strip_prefix backticks (drop_while is_js_space s) with
  | Some _ => true
  | None => false
  end.

(** The shortest prefix of [s] that ends in a closing brace standing right
    before the closing fence. *)
Fixpoint fence_body (s : jsstring) : option jsstring :=
  match s with
  | [] => None
  | x :: s' =>
      if (x =? ch "}")%N && closes_fence s' then Some [x]
      else
        match fence_body s' with
        | Some p => Some (x :: p)
        | None => None
        end
  end.

(** A brace-delimited body at the start of [s]. *)
Definition body_here (s : jsstring) : option jsstring :=
  match s with
  | b :: t =>
      if (b =? ch "{")%N then
        match fence_body t with
        | Some body => Some (b :: body)
        | None => None
        end
      else None
  | [] => None
  end.

(** The tag after the opening backticks: the word json, which may be left
    out unless [tag_required]. *)
Definition skip_tag (tag_required : bool) (s : jsstring) : option jsstring :=
  match strip_prefix (lit "json") s with
  | Some r => Some r
  | None => if tag_required then None else Some s
  end.

(** The body of a code fence that opens at the start of [s]: three
    backticks, the tag, white space, and a brace-delimited body up to the
    closing fence. *)
Definition fence_here (tag_required : bool) (s : jsstring) : option jsstring :=
  match strip_prefix backticks s with
  | Some r =>
      match skip_tag tag_required r with
      | Some r1 => body_here (drop_while is_js_space r1)
      | None => None
      end
  | None => None
  end.

(** The body of the first code fence of [s]. *)
Fixpoint find_fence (tag_required : bool) (s : jsstring) : option jsstring :=
  match fence_here tag_required s with
  | Some b => Some b
  | None =>
      match s with
      | _ :: s' => find_fence tag_required s'
      | [] => None
      end
  end.

(** Step (b): the braces of the whole input, parsed, or null. *)
Definition coerce_braces (content : jsstring) : value :=
  match brace_span content with
  | Some t =>
      match JSON_parse t with
      | Some v => v
      | None => VNull
      end
  | None => VNull
  end.

(** Steps (a) and (b) in turn.  With [tag_required] the fence of step (a)
    must carry the tag json, as the specification words it; without, the tag
    is optional. *)
Definition coerce_described (tag_required : bool) (content : jsstring)
  : value :=
  match find_fence tag_required content with
  | Some fenced =>
      match JSON_parse fenced with
      | Some v => v
      | None => coerce_braces content
      end
  | None => coerce_braces content
  end.

(* ================================================================== *)
(** * What one run of the generation routine depends on *)
(* ================================================================== *)

(** The credential, when [process.env.GEMINI_API_KEY] is truthy. *)
Definition credential (w : World) : option jsstring :=
  match env_GEMINI_API_KEY w with
  | Some (c :: k) => Some (c :: k)
  | _ => None
  end.

(** The exchange with the upstream service that the next [fetch] performs. *)
Definition exchange (w : World) (key prompt : jsstring) : fetch_result :=
  network w (exchanges w) (gemini_request key prompt).

(** The JSON document the upstream service answers with, when there is a
    credential and the exchange succeeds with a success status and a body
    that is JSON. *)
Definition upstream_json (w : World) (prompt : jsstring) : option value :=
  match credential w with
  | Some key =>
      match reply (exchange w key prompt) with
      | Some r =>
          if reply_ok r then
            match reply_body r with
            | Some t => JSON_parse t
            | None => None
            end
          else None
      | None => None
      end
  | None => None
  end.

(** The value whose fields the routine merges over the fallback record:
    what the coercer makes of the completion text, when that is a non-empty
    string. *)
Definition parsed_completion (w : World) (prompt : jsstring) : option value :=
  match upstream_json w prompt with
  | Some json =>
      match completion_text json with
      | VString (x :: s) => Some (coerce_described false (x :: s))
      | _ => None
      end
  | None => None
  end.

(** The time the upstream exchange takes, none when there is no credential. *)
Definition upstream_elapsed (w : World) (prompt : jsstring) : Z :=
  match credential w with
  | Some key => elapsed (exchange w key prompt)
  | None => 0%Z
  end.

(** The ways a run can fail to obtain a parsed completion. *)
Inductive failure_path (w : World) (prompt : jsstring) : Prop :=
| Missing_credential :
    no_key (env_GEMINI_API_KEY w) = true -> failure_path w prompt
| Transport_failure key :
    credential w = Some key -> reply (exchange w key prompt) = None ->
    failure_path w prompt
| Non_success_status key r :
    credential w = Some key -> reply (exchange w key prompt) = Some r ->
    reply_ok r = false -> failure_path w prompt
| Unreadable_body key r :
    credential w = Some key -> reply (exchange w key prompt) = Some r ->
    reply_ok r = true -> parse_opt (reply_body r) = None ->
    failure_path w prompt
| Empty_completion json :
    upstream_json w prompt = Some json ->
    truthy (completion_text json) = false -> failure_path w prompt
| Completion_not_a_string json :
    upstream_json w prompt = Some json ->
    (forall s, completion_text json <> VString s) -> failure_path w prompt
| Parse_failure json s :
    upstream_json w prompt = Some json ->
    completion_text json = VString s ->
    coerce_described false s = VNull -> failure_path w prompt.

(** A field that holds something: not null, not undefined, and not an empty
    string or an empty list. *)
Definition nonempty (v : value) : Prop :=
  match v with
  | VUndefined | VNull | VString [] | VArray [] => False
  | _ => True
  end.

(** Every field of the entry is non-empty. *)
Definition entry_nonempty (e : ClarityEntry) : Prop :=
  id e <> [] /\ prompt e <> [] /\ nonempty (summary e)
  /\ nonempty (feelings e) /\ nonempty (actionPlan e)
  /\ nonempty (reflectionPrompts e) /\ createdAt e <> [].

(** A value is present when it is neither undefined nor null. *)
Definition present (v : value) : Prop := nullish v = false.

(** The cross-origin headers of a response to a request from [origin]. *)
Definition cors_applied (origin : option jsstring) (r : NextResponse) : Prop :=
  (forall o, origin = Some o -> In o allowedOrigins ->
     headers_get (headers r) ACAO = Some o
     /\ headers_get (headers r) ACAC = Some (lit "true"))
  /\ ((forall o, origin = Some o -> ~ In o allowedOrigins) ->
      headers_get (headers r) ACAO = Some (hd [] allowedOrigins)
      /\ headers_get (headers r) ACAC = None)
  /\ headers_get (headers r) ACAM = Some (lit "POST, OPTIONS")
  /\ headers_get (headers r) ACAH
     = Some (lit "Content-Type, Authorization, X-Requested-With")
  /\ headers_get (headers r) ACMA = Some (lit "86400").

(** The three answers of POST. *)
Definition answer_400 (origin : option jsstring) : NextResponse :=
  setCorsHeaders (json_response (error_payload "Prompt is required") 400)
    origin.

Definition answer_500 (origin : option jsstring) : NextResponse :=
  setCorsHeaders
    (json_response (error_payload "Failed to generate diagnosis") 500) origin.

Definition answer_200 (e : ClarityEntry) (origin : option jsstring)
  : NextResponse :=
  setCorsHeaders (json_response (VObject (entry_object e)) 200) origin.

(** The world with another network. *)
Definition with_network (net : nat -> fetch_request -> fetch_result)
  (w : World) : World :=
  mkWorld (env_GEMINI_API_KEY w) (env_NEXT_PUBLIC_VERCEL_API_URL w)
    (has_window w) (clock w) (random w) (draws w) net (exchanges w) (trace w).

(** The host between two calls: [d] milliseconds go by on its clock, fewer
    than none when the clock is set back. *)
Definition between_calls (d : Z) (w : World) : World :=
  mkWorld (env_GEMINI_API_KEY w) (env_NEXT_PUBLIC_VERCEL_API_URL w)
    (has_window w) (clock w + d)%Z (random w) (draws w) (network w)
    (exchanges w) (trace w).

(* ================================================================== *)
(** * Sample worlds and requests *)
(* ================================================================== *)

(** A server on 2023-11-14 whose source of randomness repeats itself. *)
Definition repeating_server (key : option jsstring)
  (net : nat -> fetch_request -> fetch_result) : World :=
  mkWorld key None false 1700000000000 (fun _ => 0%N) 0 net 0 [].

(** A network on which every exchange takes a second and a half and is
    answered with [st] and [text]. *)
Definition answering (st : Z) (text : jsstring)
  : nat -> fetch_request -> fetch_result :=
  fun _ _ => mkFetchResult 1500 (Some (mkReply st (Some text))).

(** A server on 2023-11-14 with the given credential and network. *)
Definition server (key : option jsstring)
  (net : nat -> fetch_request -> fetch_result) : World :=
  mkWorld key None false 1700000000000 (fun n => N.of_nat n) 0 net 0 [].

(** A browser in front of the given network. *)
Definition browser (net : nat -> fetch_request -> fetch_result) : World :=
  mkWorld None None true 1700000000000 (fun n => N.of_nat n) 0 net 0 [].

(** An upstream document whose completion text is [{"summary":""}]. *)
Definition empty_summary_document : jsstring :=
  qlit "{'candidates':[{'content':{'parts':[{'text':'{\'summary\':\'\'}'}]}}]}".

(** An upstream document whose completion text is [{"summary":"Rest."}]. *)
Definition summary_only_document : jsstring :=
  qlit "{'candidates':[{'content':{'parts':[{'text':'{\'summary\':\'Rest.\'}'}]}}]}".

(** An upstream document whose completion text is
    [{"summary":"Rest.","id":"x","createdAt":"y"}]. *)
Definition impostor_document : jsstring :=
  qlit "{'candidates':[{'content':{'parts':[{'text':'{\'summary\':\'Rest.\',\'id\':\'x\',\'createdAt\':\'y\'}'}]}}]}".

(** Prose with braces, then a fence without a tag around a JSON object. *)
Definition untagged_fence : jsstring :=
  lit "Here is {the} result:" ++ LF ++ lit "```" ++ LF
  ++ qlit "{'summary':'ok'}" ++ LF ++ lit "```".

(** Prose, then a fence tagged json around a JSON object, then prose. *)
Definition tagged_fence : jsstring :=
  lit "Sure {gladly}!" ++ LF ++ lit "```json" ++ LF
  ++ qlit "{'summary':'ok'}" ++ LF ++ lit "```" ++ LF ++ lit "Take care }".

Definition request_with (origin : option jsstring) (text : string)
  : NextRequest :=
  mkRequest origin (qlit text).

(** Console output only. *)
Definition is_console (e : event) : bool :=
  match e with
  | EvConsole _ _ => true
  | EvFetch _ => false
  end.

Arguments JSON_parse : simpl never.
Arguments toISOString : simpl never.
Arguments uuid_of : simpl never.
Arguments coerce_described : simpl never.
Arguments gemini_request : simpl never.
Arguments completion_text : simpl never.
Arguments coerceJson : simpl never.

(** [w'] is [w] after console output and nothing else: no exchange, no
    random draw, and the clock has not moved. *)
Definition console_only (w w' : World) : Prop :=
  env_GEMINI_API_KEY w' = env_GEMINI_API_KEY w
  /\ env_NEXT_PUBLIC_VERCEL_API_URL w' = env_NEXT_PUBLIC_VERCEL_API_URL w
  /\ has_window w' = has_window w
  /\ clock w' = clock w
  /\ random w' = random w
  /\ draws w' = draws w
  /\ network w' = network w
  /\ exchanges w' = exchanges w
  /\ exists evs, trace w' = trace w ++ evs /\ forallb is_console evs = true.
Arguments upstream_json : simpl never.

(* ================================================================== *)
(** * The rest of src/lib/api.ts: getClarityInsights and the request body *)
(* ================================================================== *)

(** What [getClarityInsights] throws in a browser: the error it builds from
    a non-success answer, [new Error(`API error (${res.status}): ${errorText}`)],
    or whatever [fetch] or [res.json()] threw. *)
Inductive insights_error :=
| ApiError (status : Z) (errorText : jsstring)
| Rethrown (e : exn).

Inductive insights_result :=
| Insights (data : value)
| InsightsError (e : insights_error).

(** [console.error("Fetch error:", error)], the line the [catch] blocks of
    both client helpers write. *)
Definition fetch_error_logged : event :=
  EvConsole Error Site_report_fetch_error.

(** [await res.text().catch(() => "Unknown error")] *)
Definition text_or_unknown (res : http_reply) : jsstring :=
  match reply_body res with
  | Some t => t
  | None => lit "Unknown error"
  end.

(** [getClarityInsights(prompt)].  In a browser the [try] block ends in
    [return res.json()]: the promise is handed back without being awaited,
    so when it rejects the [catch] block does not run and nothing is
    logged. *)
Definition getClarityInsights (prompt : jsstring)
  : World -> insights_result * World :=
  fun w =>
    if has_window w then
      match fetch (endpoint_request (api_url w) prompt) w with
      | (Ok res, w1) =>
          if negb (reply_ok res) then
            (InsightsError (ApiError (reply_status res) (text_or_unknown res)),
             add_event fetch_error_logged w1)
          else
            match reply_json res w1 with
            | (Ok data, w2) => (Insights data, w2)
            | (Throw e, w2) => (InsightsError (Rethrown e), w2)
            end
      | (Throw e, w1) =>
          (InsightsError (Rethrown e), add_event fetch_error_logged w1)
      end
    else
      match runClarityOnServer prompt w with
      | (Ok entry, w') => (Insights (VObject (entry_object entry)), w')
      | (Throw e, w') => (InsightsError (Rethrown e), w')
      end.

(** The four hexadecimal digits of a code unit, lower case. *)
Definition hex4_digits (c : N) : jsstring :=
  [ hex_digit (c / 4096 mod 16); hex_digit (c / 256 mod 16);
    hex_digit (c / 16 mod 16); hex_digit (c mod 16) ]%N.

(** [\uXXXX] *)
Definition unicode_escape (c : N) : jsstring :=
  [92; 117]%N ++ hex4_digits c.

Definition is_high_surrogate (c : N) : bool :=
  ((55296 <=? c) && (c <=? 56319))%N.

Definition is_low_surrogate (c : N) : bool :=
  ((56320 <=? c) && (c <=? 57343))%N.

(** The two-character escapes of QuoteJSONString. *)
Definition short_escape (c : N) : option N :=
  if (c =? 8)%N then Some 98%N          (* backspace: b *)
  else if (c =? 9)%N then Some 116%N    (* tab: t *)
  else if (c =? 10)%N then Some 110%N   (* line feed: n *)
  else if (c =? 12)%N then Some 102%N   (* form feed: f *)
  else if (c =? 13)%N then Some 114%N   (* carriage return: r *)
  else if (c =? 34)%N then Some 34%N    (* quote *)
  else if (c =? 92)%N then Some 92%N    (* backslash *)
  else None.

(** The characters between the quotes of [JSON.stringify(s)] for a string:
    the short escapes, [\uXXXX] for the other control characters and for a
    surrogate that has no partner, and everything else as it is. *)
Fixpoint quote_units (s : jsstring) : jsstring :=
  match s with
  | [] => []
  | c :: r =>
      match short_escape c with
      | Some e => 92%N :: e :: quote_units r
      | None =>
          if (c <? 32)%N then unicode_escape c ++ quote_units r
          else if is_high_surrogate c then
            match r with
            | d :: r' =>
                if is_low_surrogate d then c :: d :: quote_units r'
                else unicode_escape c ++ quote_units r
            | [] => unicode_escape c
            end
          else if is_low_surrogate c then unicode_escape c ++ quote_units r
          else c :: quote_units r
      end
  end.

(** [JSON.stringify(s)] for a string [s]. *)
Definition JSON_quote (s : jsstring) : jsstring :=
  34%N :: quote_units s ++ [34%N].

(** [JSON.stringify({ prompt })], the body both client helpers send. *)
Definition stringify_prompt_body (prompt : jsstring) : jsstring :=
  lit "{" ++ JSON_quote (prop_name P_prompt) ++ lit ":" ++ JSON_quote prompt
  ++ lit "}".

(** A string of code units: each below 2^16. *)
Definition well_formed (s : jsstring) : Prop :=
  Forall (fun c => (c < 65536)%N) s.

(** The instructions as they reach the upstream service, up to the colon
    that precedes the user's input. *)
Definition preamble : jsstring :=
  lit "You are ClarityPath, an empathetic personal growth coach."
  ++ LF ++ lit "Provide a concise JSON response with the following keys:"
  ++ LF ++ lit "- summary: short explanation of the core issue"
  ++ LF ++ lit "- feelings: array of 3-6 feelings the person might experience"
  ++ LF ++ lit "- actionPlan: array of 4-6 ordered steps that are realistic"
  ++ LF ++ lit "- reflectionPrompts: array of 3-4 short journal prompts"
  ++ LF
  ++ LF ++ lit "Keep the tone warm, practical, and specific. User input:".

(** [s] without the white space at its end. *)
Definition trim_end (s : jsstring) : jsstring :=
  rev (drop_while is_js_space (rev s)).

(** The text of the single message of an upstream request:
    [body.contents[0].parts[0].text], when [contents] and [parts] hold one
    element each. *)
Definition message_text (req : fetch_request) : option jsstring :=
  match fr_body req with
  | VObject ((k1, VArray [VObject [_; (k2, VArray [VObject [(k3, VString t)]])]])
             :: _) =>
      if jsstring_eqb k1 (lit "contents") && jsstring_eqb k2 (lit "parts")
         && jsstring_eqb k3 (lit "text")
      then Some t else None
  | _ => None
  end.

(** The exchanges recorded in a trace. *)
Definition fetches (tr : list event) : list event :=
  filter (fun e => negb (is_console e)) tr.

(** The names of the five headers [setCorsHeaders] sets, as the Headers
    class holds them. *)
Definition cors_header_names : list jsstring :=
  map to_lower [ACAO; ACAC; ACAM; ACAH; ACMA].

(** Whether POST reaches the upstream service: the body parses, its prompt
    is a non-empty string, and there is a credential. *)
Definition calls_upstream (req : NextRequest) (w : World) : bool :=
  match JSON_parse (req_body req), credential w with
  | Some b, Some _ =>
      match get b P_prompt with
      | VString (_ :: _) => true
      | _ => false
      end
  | _, _ => false
  end.

(** A network that answers every exchange with the status [st] and a body
    that cannot be read. *)
Definition unreadable (st : Z) : nat -> fetch_request -> fetch_result :=
  fun _ _ => mkFetchResult 20 (Some (mkReply st None)).
(* ================================================================== *)
(** * Strings: basic facts *)
(* ================================================================== *)

Lemma jsstring_eqb_eq (a b : jsstring) : jsstring_eqb a b = true <-> a = b.
Proof.
  revert b; induction a as [|x a IH]; intros [|y b]; simpl;
    try (split; [discriminate | congruence]); try tauto.
  rewrite andb_true_iff, N.eqb_eq, IH. split.
  - intros [-> ->]; reflexivity.
  - intros H; inversion H; auto.
Qed.

Lemma jsstring_eqb_refl (a : jsstring) : jsstring_eqb a a = true.
Proof. apply jsstring_eqb_eq; reflexivity. Qed.

Lemma jsstring_eqb_neq (a b : jsstring) : jsstring_eqb a b = false <-> a <> b.
Proof.
  rewrite <- jsstring_eqb_eq. destruct (jsstring_eqb a b); split; congruence.
Qed.

Lemma strip_prefix_app (p s r : jsstring) :
  strip_prefix p s = Some r <-> s = p ++ r.
Proof.
  revert s; induction p as [|x p IH]; intros s; simpl.
  - split; congruence.
  - destruct s as [|y s]; [split; discriminate|].
    destruct (N.eqb_spec x y) as [->|Hne].
    + rewrite IH. split; congruence.
    + split; [discriminate | intros H; inversion H; congruence].
Qed.

Lemma drop_while_length (p : N -> bool) (s : jsstring) :
  List.length (drop_while p s) <= List.length s.
Proof.
  induction s as [|c s IH]; simpl; [lia|]. destruct (p c); simpl; lia.
Qed.

Lemma skip_ws_length (s : jsstring) :
  List.length (skip_ws s) <= List.length s.
Proof. apply drop_while_length. Qed.

Lemma skip_ws_cons (s r : jsstring) (c : N) :
  skip_ws s = c :: r -> List.length r < List.length s.
Proof.
  intros H. pose proof (skip_ws_length s) as L. rewrite H in L. simpl in L. lia.
Qed.

(* ================================================================== *)
(** * JSON.parse: every value consumes input, and the fuel suffices *)
(* ================================================================== *)

Lemma parse_string_length (n : nat) :
  forall s str r, List.length s <= n ->
    parse_string s = Some (str, r) -> List.length r < List.length s.
Proof.
  induction n as [|n IH]; intros s str r Hn H.
  - destruct s; [discriminate | simpl in Hn; lia].
  - destruct s as [|c s]; [discriminate|]. simpl in H, Hn.
    destruct (c =? 34)%N.
    { inversion H; subst; simpl; lia. }
    destruct (c =? 92)%N.
    { destruct s as [|e r1]; [discriminate|].
      destruct (e =? 117)%N.
      - destruct r1 as [|h1 [|h2 [|h3 [|h4 r2]]]]; try discriminate.
        destruct (hex4 h1 h2 h3 h4); [|discriminate].
        destruct (parse_string r2) as [[str' rest]|] eqn:E; [|discriminate].
        inversion H; subst. apply IH in E; simpl in *; lia.
      - destruct (escape_unit e); [|discriminate].
        destruct (parse_string r1) as [[str' rest]|] eqn:E; [|discriminate].
        inversion H; subst. apply IH in E; simpl in *; lia. }
    destruct (c <? 32)%N; [discriminate|].
    destruct (parse_string s) as [[str' rest]|] eqn:E; [|discriminate].
    inversion H; subst. apply IH in E; simpl in *; lia.
Qed.

Lemma take_digits_length (s : jsstring) :
  List.length (snd (take_digits s)) <= List.length s.
Proof.
  induction s as [|c s IH]; simpl; [lia|].
  destruct (is_digit c); simpl; [|lia].
  destruct (take_digits s); simpl in *; lia.
Qed.

Lemma parse_int_part_length (s ip r : jsstring) :
  parse_int_part s = Some (ip, r) -> List.length r < List.length s.
Proof.
  destruct s as [|c s]; simpl; [discriminate|].
  destruct (c =? 48)%N; [intros H; inversion H; subst; simpl; lia|].
  destruct (is_digit c); [|discriminate].
  pose proof (take_digits_length s) as L.
  destruct (take_digits s); simpl in *. intros H; inversion H; subst. lia.
Qed.

Lemma parse_frac_part_length (s fp r : jsstring) :
  parse_frac_part s = Some (fp, r) -> List.length r <= List.length s.
Proof.
  destruct s as [|c s]; simpl; [intros H; inversion H; simpl; lia|].
  destruct (c =? 46)%N.
  - pose proof (take_digits_length s) as L.
    destruct (take_digits s) as [[|d ds] rest]; [discriminate|].
    simpl in *. intros H; inversion H; subst. lia.
  - intros H; inversion H; subst; simpl; lia.
Qed.

Lemma parse_exp_part_length (s r : jsstring) (e : Z) :
  parse_exp_part s = Some (e, r) -> List.length r <= List.length s.
Proof.
  destruct s as [|c s]; simpl; [intros H; inversion H; simpl; lia|].
  destruct ((c =? 101) || (c =? 69))%N.
  - destruct s as [|x s'].
    + simpl. discriminate.
    + destruct (x =? 45)%N; [|destruct (x =? 43)%N];
        match goal with
        | |- context [take_digits ?t] =>
            pose proof (take_digits_length t) as L;
            destruct (take_digits t) as [[|d ds] rest]; [discriminate|]
        end; simpl in *; intros H; inversion H; subst; lia.
  - intros H; inversion H; subst; simpl; lia.
Qed.

Lemma parse_number_length (s r : jsstring) (d : number) :
  parse_number s = Some (d, r) -> List.length r < List.length s.
Proof.
  unfold parse_number.
  set (p := match s with
            | c :: r0 => if (c =? 45)%N then (true, r0) else (false, s)
            | [] => (false, s)
            end).
  assert (Hp : List.length (snd p) <= List.length s).
  { subst p. destruct s as [|c s']; simpl; [lia|].
    destruct (c =? 45)%N; simpl; lia. }
  destruct p as [sg s1]. simpl in Hp.
  destruct (parse_int_part s1) as [[ip s2]|] eqn:E1; [|discriminate].
  destruct (parse_frac_part s2) as [[fp s3]|] eqn:E2; [|discriminate].
  destruct (parse_exp_part s3) as [[e s4]|] eqn:E3; [|discriminate].
  apply parse_int_part_length in E1. apply parse_frac_part_length in E2.
  apply parse_exp_part_length in E3.
  intros H; inversion H; subst. lia.
Qed.

Lemma strip_prefix_length (p s r : jsstring) :
  strip_prefix p s = Some r -> List.length s = List.length p + List.length r.
Proof.
  intros H. apply strip_prefix_app in H. subst. apply length_app.
Qed.

Lemma parse_scalar_length (s r : jsstring) (v : value) :
  parse_scalar s = Some (v, r) -> List.length r < List.length s.
Proof.
  destruct s as [|c s]; [discriminate|]. unfold parse_scalar.
  destruct (c =? 34)%N.
  { destruct (parse_string s) as [[str rest]|] eqn:E; [|discriminate].
    apply (parse_string_length (n := List.length s)) in E; [|lia].
    intros H; inversion H; subst; simpl; lia. }
  destruct (strip_prefix (lit "true") (c :: s)) eqn:E1.
  { apply strip_prefix_length in E1. intros H; inversion H; subst.
    rewrite E1. simpl. lia. }
  destruct (strip_prefix (lit "false") (c :: s)) eqn:E2.
  { apply strip_prefix_length in E2. intros H; inversion H; subst.
    rewrite E2. simpl. lia. }
  destruct (strip_prefix (lit "null") (c :: s)) eqn:E3.
  { apply strip_prefix_length in E3. intros H; inversion H; subst.
    rewrite E3. simpl. lia. }
  destruct (parse_number (c :: s)) as [[d rest]|] eqn:E4; [|discriminate].
  apply parse_number_length in E4. intros H; inversion H; subst. exact E4.
Qed.

(** One step of each of the three mutually recursive functions. *)
Lemma parse_value_S (f : nat) (s : jsstring) :
  parse_value (S f) s =
  match skip_ws s with
  | c :: r =>
      if (c =? 123)%N then
        match skip_ws r with
        | c' :: r' =>
            if (c' =? 125)%N then Some (VObject [], r')
            else parse_members f r []
        | [] => None
        end
      else if (c =? 91)%N then
        match skip_ws r with
        | c' :: r' =>
            if (c' =? 93)%N then Some (VArray [], r')
            else parse_elements f r []
        | [] => None
        end
      else parse_scalar (c :: r)
  | [] => None
  end.
Proof. reflexivity. Qed.

Lemma parse_elements_S (f : nat) (s : jsstring) (acc : list value) :
  parse_elements (S f) s acc =
  match parse_value f s with
  | Some (v, r) =>
      match skip_ws r with
      | c :: r' =>
          if (c =? 44)%N then parse_elements f r' (acc ++ [v])
          else if (c =? 93)%N then Some (VArray (acc ++ [v]), r')
          else None
      | [] => None
      end
  | None => None
  end.
Proof. reflexivity. Qed.

Lemma parse_members_S (f : nat) (s : jsstring) (acc : list (jsstring * value)) :
  parse_members (S f) s acc =
  match skip_ws s with
  | c :: r =>
      if (c =? 34)%N then
        match parse_string r with
        | Some (k, r1) =>
            match skip_ws r1 with
            | c1 :: r2 =>
                if (c1 =? 58)%N then
                  match parse_value f r2 with
                  | Some (v, r3) =>
                      match skip_ws r3 with
                      | c3 :: r4 =>
                          if (c3 =? 44)%N
                          then parse_members f r4 (obj_set acc k v)
                          else if (c3 =? 125)%N
                          then Some (VObject (obj_set acc k v), r4)
                          else None
                      | [] => None
                      end
                  | None => None
                  end
                else None
            | [] => None
            end
        | None => None
        end
      else None
  | [] => None
  end.
Proof. reflexivity. Qed.

Global Opaque parse_value parse_elements parse_members.

(** Whatever is parsed, something was consumed. *)
Lemma parse_consumes (f : nat) :
  (forall s v r, parse_value f s = Some (v, r) ->
                 List.length r < List.length s)
  /\ (forall s acc v r, parse_elements f s acc = Some (v, r) ->
                        List.length r < List.length s)
  /\ (forall s acc v r, parse_members f s acc = Some (v, r) ->
                        List.length r < List.length s).
Proof.
  induction f as [|f (IHv & IHe & IHm)].
  { repeat split; intros; discriminate. }
  repeat split.
  - intros s v r. rewrite parse_value_S.
    destruct (skip_ws s) as [|c t] eqn:Es; [discriminate|].
    apply skip_ws_cons in Es.
    destruct (c =? 123)%N.
    { destruct (skip_ws t) as [|c' t'] eqn:Et; [discriminate|].
      apply skip_ws_cons in Et.
      destruct (c' =? 125)%N.
      - intros H; inversion H; subst; lia.
      - intros H. apply IHm in H. lia. }
    destruct (c =? 91)%N.
    { destruct (skip_ws t) as [|c' t'] eqn:Et; [discriminate|].
      apply skip_ws_cons in Et.
      destruct (c' =? 93)%N.
      - intros H; inversion H; subst; lia.
      - intros H. apply IHe in H. lia. }
    intros H. apply parse_scalar_length in H. simpl in H. lia.
  - intros s acc v r. rewrite parse_elements_S.
    destruct (parse_value f s) as [[v1 r1]|] eqn:Ev; [|discriminate].
    apply IHv in Ev.
    destruct (skip_ws r1) as [|c t] eqn:Et; [discriminate|].
    apply skip_ws_cons in Et.
    destruct (c =? 44)%N.
    { intros H. apply IHe in H. lia. }
    destruct (c =? 93)%N; [|discriminate].
    intros H; inversion H; subst; lia.
  - intros s acc v r. rewrite parse_members_S.
    destruct (skip_ws s) as [|c t] eqn:Es; [discriminate|].
    apply skip_ws_cons in Es.
    destruct (c =? 34)%N; [|discriminate].
    destruct (parse_string t) as [[k r1]|] eqn:Ek; [|discriminate].
    apply (parse_string_length (n := List.length t)) in Ek; [|lia].
    destruct (skip_ws r1) as [|c1 r2] eqn:E1; [discriminate|].
    apply skip_ws_cons in E1.
    destruct (c1 =? 58)%N; [|discriminate].
    destruct (parse_value f r2) as [[v1 r3]|] eqn:Ev; [|discriminate].
    apply IHv in Ev.
    destruct (skip_ws r3) as [|c3 r4] eqn:E3; [discriminate|].
    apply skip_ws_cons in E3.
    destruct (c3 =? 44)%N.
    { intros H. apply IHm in H. lia. }
    destruct (c3 =? 125)%N; [|discriminate].
    intros H; inversion H; subst; lia.
Qed.

(** Past twice the length of the input, one more unit of fuel changes
    nothing: no result of the parser is an exhaustion of the fuel. *)
Lemma parse_fuel_step (f : nat) :
  (forall s, 2 * List.length s + 1 <= f ->
             parse_value (S f) s = parse_value f s)
  /\ (forall s acc, 2 * List.length s + 2 <= f ->
                    parse_elements (S f) s acc = parse_elements f s acc)
  /\ (forall s acc, 2 * List.length s + 2 <= f ->
                    parse_members (S f) s acc = parse_members f s acc).
Proof.
  induction f as [|f (IHv & IHe & IHm)].
  { repeat split; intros; lia. }
  repeat split.
  - intros s Hf. rewrite (parse_value_S (S f)), (parse_value_S f).
    destruct (skip_ws s) as [|c t] eqn:Es; [reflexivity|].
    apply skip_ws_cons in Es.
    destruct (c =? 123)%N.
    { destruct (skip_ws t) as [|c' t'] eqn:Et; [reflexivity|].
      destruct (c' =? 125)%N; [reflexivity|]. apply IHm. lia. }
    destruct (c =? 91)%N; [|reflexivity].
    destruct (skip_ws t) as [|c' t'] eqn:Et; [reflexivity|].
    destruct (c' =? 93)%N; [reflexivity|]. apply IHe. lia.
  - intros s acc Hf. rewrite (parse_elements_S (S f)), (parse_elements_S f).
    rewrite IHv by lia.
    destruct (parse_value f s) as [[v1 r1]|] eqn:Ev; [|reflexivity].
    apply (proj1 (parse_consumes f)) in Ev.
    destruct (skip_ws r1) as [|c t] eqn:Et; [reflexivity|].
    apply skip_ws_cons in Et.
    destruct (c =? 44)%N; [|reflexivity]. apply IHe. lia.
  - intros s acc Hf. rewrite (parse_members_S (S f)), (parse_members_S f).
    destruct (skip_ws s) as [|c t] eqn:Es; [reflexivity|].
    apply skip_ws_cons in Es.
    destruct (c =? 34)%N; [|reflexivity].
    destruct (parse_string t) as [[k r1]|] eqn:Ek; [|reflexivity].
    apply (parse_string_length (n := List.length t)) in Ek; [|lia].
    destruct (skip_ws r1) as [|c1 r2] eqn:E1; [reflexivity|].
    apply skip_ws_cons in E1.
    destruct (c1 =? 58)%N; [|reflexivity].
    rewrite IHv by lia.
    destruct (parse_value f r2) as [[v1 r3]|] eqn:Ev; [|reflexivity].
    apply (proj1 (parse_consumes f)) in Ev.
    destruct (skip_ws r3) as [|c3 r4] eqn:E3; [reflexivity|].
    apply skip_ws_cons in E3.
    destruct (c3 =? 44)%N; [|reflexivity]. apply IHm. lia.
Qed.

(** The fuel [JSON_parse] supplies is enough: any larger amount gives the
    same result. *)
Lemma parse_value_fuel (s : jsstring) (f : nat) :
  2 * List.length s + 1 <= f ->
  parse_value f s = parse_value (2 * List.length s + 1) s.
Proof.
  induction 1 as [|f Hle IH]; [reflexivity|].
  rewrite <- IH. apply (proj1 (parse_fuel_step f)). exact Hle.
Qed.

Lemma parse_members_object (f : nat) :
  forall s acc v r, parse_members f s acc = Some (v, r) -> is_object v = true.
Proof.
  induction f as [|f IH]; intros s acc v r; [discriminate|].
  rewrite parse_members_S.
  destruct (skip_ws s) as [|c t]; [discriminate|].
  destruct (c =? 34)%N; [|discriminate].
  destruct (parse_string t) as [[k r1]|]; [|discriminate].
  destruct (skip_ws r1) as [|c1 r2]; [discriminate|].
  destruct (c1 =? 58)%N; [|discriminate].
  destruct (parse_value f r2) as [[v1 r3]|]; [|discriminate].
  destruct (skip_ws r3) as [|c3 r4]; [discriminate|].
  destruct (c3 =? 44)%N; [apply IH|].
  destruct (c3 =? 125)%N; [|discriminate].
  intros H; inversion H; reflexivity.
Qed.

Lemma JSON_parse_brace (s : jsstring) (v : value) :
  JSON_parse (ch "{" :: s) = Some v -> is_object v = true.
Proof.
  unfold JSON_parse.
  replace (2 * List.length (ch "{" :: s) + 1)
    with (S (2 * List.length (ch "{" :: s))) by lia.
  rewrite parse_value_S.
  change (skip_ws (ch "{" :: s)) with (ch "{" :: s). cbv iota beta.
  change (ch "{" =? 123)%N with true. cbv iota.
  destruct (skip_ws s) as [|c' t'] eqn:Et; [discriminate|].
  destruct (c' =? 125)%N; cbv iota beta.
  - destruct (skip_ws t'); [|discriminate]. intros H; inversion H; reflexivity.
  - destruct (parse_members _ s []) as [[v1 r1]|] eqn:Em; [|discriminate].
    apply parse_members_object in Em.
    destruct (skip_ws r1); [|discriminate]. intros H; inversion H; subst. exact Em.
Qed.

(* ================================================================== *)
(** * The two regular expressions *)
(* ================================================================== *)

Section MatcherFacts.
Variable R : Type.

Lemma star_greedy_ext (p : N -> bool) (k1 k2 : cont R) :
  (forall s c, k1 s c = k2 s c) ->
  forall s cap, star_greedy p s cap k1 = star_greedy p s cap k2.
Proof.
  intros E s cap. induction s as [|x s IH]; simpl; [apply E|].
  rewrite IH, E. reflexivity.
Qed.

Lemma star_lazy_ext (p : N -> bool) (k1 k2 : cont R) :
  (forall s c, k1 s c = k2 s c) ->
  forall s cap, star_lazy p s cap k1 = star_lazy p s cap k2.
Proof.
  intros E s cap. induction s as [|x s IH]; simpl; rewrite E; [reflexivity|].
  rewrite IH. reflexivity.
Qed.

Lemma rmatch_ext (r : regex) :
  forall (k1 k2 : cont R), (forall s c, k1 s c = k2 s c) ->
  forall s cap, rmatch r s cap k1 = rmatch r s cap k2.
Proof.
  induction r as [|c|r1 IH1 r2 IH2|r IH|p|p|r IH]; intros k1 k2 E s cap; simpl.
  - apply E.
  - destruct s as [|x s]; [reflexivity|]. destruct (x =? c)%N; [apply E|reflexivity].
  - apply IH1. intros s1 c1. apply IH2. exact E.
  - rewrite (IH k1 k2 E), E. reflexivity.
  - apply star_greedy_ext, E.
  - apply star_lazy_ext, E.
  - apply IH. intros s1 c1. apply E.
Qed.

(** A literal matches exactly when it is a prefix. *)
Lemma rmatch_lit (p s : jsstring) (cap : option jsstring) (k : cont R) :
  rmatch (rlit p) s cap k =
  match strip_prefix p s with
  | Some r => k r cap
  | None => None
  end.
Proof.
  revert s; induction p as [|x p IH]; intros s; simpl; [reflexivity|].
  destruct s as [|y s]; [reflexivity|].
  rewrite (N.eqb_sym y x). destruct (x =? y)%N; [apply IH|reflexivity].
Qed.

(** A greedy run of a class never has to give anything back when what
    follows cannot start with a member of the class. *)
Lemma star_greedy_all (p : N -> bool) (k : cont R) :
  (forall c r cap, p c = true -> k (c :: r) cap = None) ->
  forall s cap, star_greedy p s cap k = k (drop_while p s) cap.
Proof.
  intros Hk s cap. induction s as [|x s IH]; simpl; [reflexivity|].
  destruct (p x) eqn:Px; [|reflexivity].
  rewrite IH. destruct (k (drop_while p s) cap); [reflexivity|].
  apply Hk, Px.
Qed.

(** A greedy run of anything followed by [c] ends at the last [c]. *)
Lemma star_greedy_last (c : N) (K : jsstring -> option jsstring -> R) :
  forall t cap,
    star_greedy any_unit t cap
      (fun s1 c1 =>
         match s1 with
         | y :: s2 => if (y =? c)%N then Some (K s2 c1) else None
         | [] => None
         end)
    = match upto_last c t with
      | Some p => Some (K (skipn (List.length p) t) cap)
      | None => None
      end.
Proof.
  induction t as [|x t IH]; intros cap; simpl; [reflexivity|].
  rewrite IH. destruct (upto_last c t) as [p|]; [reflexivity|].
  destruct (x =? c)%N; reflexivity.
Qed.

(** A lazy run of anything followed by a closing brace and by [K] stops at
    the first closing brace after which [K] succeeds. *)
Lemma star_lazy_first (K : jsstring -> option R) :
  (forall s, K s = None <-> closes_fence s = false) ->
  forall t cap,
    star_lazy any_unit t cap
      (fun s1 _ =>
         match s1 with
         | y :: s2 => if (y =? ch "}")%N then K s2 else None
         | [] => None
         end)
    = match fence_body t with
      | Some p => K (skipn (List.length p) t)
      | None => None
      end.
Proof.
  intros HK. induction t as [|x t IH]; intros cap; [reflexivity|].
  simpl star_lazy. simpl fence_body.
  destruct (x =? 125)%N; simpl andb.
  - destruct (closes_fence t) eqn:Ec.
    + simpl skipn. destruct (K t) eqn:EK; [reflexivity|].
      apply HK in EK. congruence.
    + rewrite (proj2 (HK t) Ec). rewrite IH.
      destruct (fence_body t); reflexivity.
  - rewrite IH. destruct (fence_body t); reflexivity.
Qed.

End MatcherFacts.

Lemma upto_last_prefix (c : N) (t p : jsstring) :
  upto_last c t = Some p -> exists r, t = p ++ r.
Proof.
  revert p; induction t as [|x t IH]; intros p; simpl; [discriminate|].
  destruct (upto_last c t) as [q|].
  - intros H; inversion H; subst. destruct (IH q eq_refl) as [r ->].
    exists r; reflexivity.
  - destruct (x =? c)%N; [|discriminate].
    intros H; inversion H; subst. exists t; reflexivity.
Qed.

Lemma upto_last_none (c : N) (t : jsstring) :
  upto_last c t = None <-> ~ In c t.
Proof.
  induction t as [|x t IH]; simpl; [tauto|].
  destruct (upto_last c t) as [q|].
  - split; [discriminate|]. intros H. exfalso.
    destruct IH as [_ IH]. assert (Hn : ~ In c t) by tauto.
    specialize (IH Hn). discriminate.
  - destruct (N.eqb_spec x c) as [->|Hne].
    + split; [discriminate | tauto].
    + split; [|reflexivity]. intros _ [H|H]; [congruence|].
      apply (proj1 IH); auto.
Qed.

Lemma from_first_suffix (c : N) (s u : jsstring) :
  from_first c s = Some u -> exists pre, s = pre ++ u.
Proof.
  induction s as [|x s IH]; simpl; [discriminate|].
  destruct (x =? c)%N.
  - intros H; inversion H; subst. exists []; reflexivity.
  - intros H. destruct (IH H) as [pre ->]. exists (x :: pre); reflexivity.
Qed.

Lemma brace_span_none (s : jsstring) :
  ~ In (ch "}") s -> brace_span s = None.
Proof.
  intros Hn. unfold brace_span.
  destruct (from_first (ch "{") s) as [[|b t]|] eqn:E; try reflexivity.
  apply from_first_suffix in E. destruct E as [pre ->].
  assert (Hn' : ~ In (ch "}") t).
  { intros H. apply Hn. apply in_or_app. right. right. exact H. }
  apply upto_last_none in Hn'. rewrite Hn'. reflexivity.
Qed.

(** [/\{[\s\S]*\}/] at the start of [s]. *)
Lemma match_here_object (s : jsstring) :
  match_here re_object s =
  match s with
  | b :: t =>
      if (b =? ch "{")%N then
        match upto_last (ch "}") t with
        | Some body => Some (mkMatch (b :: body) None)
        | None => None
        end
      else None
  | [] => None
  end.
Proof.
  destruct s as [|b t]; [reflexivity|].
  unfold match_here, re_object. cbn [rmatch].
  destruct (b =? ch "{")%N; [|reflexivity].
  rewrite (star_greedy_last (ch "}")
             (fun s2 c1 =>
                mkMatch (firstn (List.length (b :: t) - List.length s2) (b :: t)) c1)).
  destruct (upto_last (ch "}") t) as [body|] eqn:E; [|reflexivity].
  apply upto_last_prefix in E. destruct E as [r ->].
  rewrite skipn_app, skipn_all, Nat.sub_diag. simpl skipn. simpl app at 1.
  do 2 f_equal. simpl List.length. rewrite length_app.
  replace (S (List.length body + List.length r) - List.length r)
    with (S (List.length body)) by lia.
  simpl. f_equal. rewrite firstn_app, firstn_all, Nat.sub_diag. simpl.
  apply app_nil_r.
Qed.

(** The second regular expression finds the substring from the first
    opening brace to the last closing brace. *)
Lemma str_match_object (s : jsstring) :
  str_match re_object s =
  match brace_span s with
  | Some t => Some (mkMatch t None)
  | None => None
  end.
Proof.
  induction s as [|x s IH]; [reflexivity|].
  cbn [str_match]. rewrite match_here_object.
  unfold brace_span. cbn [from_first].
  destruct (x =? ch "{")%N.
  - destruct (upto_last (ch "}") s) as [body|] eqn:E; [reflexivity|].
    rewrite IH. apply upto_last_none in E.
    rewrite (brace_span_none _ E). reflexivity.
  - rewrite IH. reflexivity.
Qed.

Lemma fence_body_closes (t p : jsstring) :
  fence_body t = Some p ->
  exists rest, t = p ++ rest /\ closes_fence rest = true.
Proof.
  revert p; induction t as [|x t IH]; intros p; cbn [fence_body]; [discriminate|].
  destruct ((x =? ch "}")%N && closes_fence t) eqn:E.
  - intros H; inversion H; subst. apply andb_true_iff in E.
    exists t; split; [reflexivity | apply E].
  - destruct (fence_body t) as [q|]; [|discriminate].
    intros H; inversion H; subst.
    destruct (IH q eq_refl) as [rest [-> Hc]]. exists rest; auto.
Qed.

Lemma space_not_backtick (c : N) (r : jsstring) :
  is_js_space c = true -> strip_prefix backticks (c :: r) = None.
Proof.
  intros Hc. cbn [backticks lit list_ascii_of_string map strip_prefix].
  destruct (N.eqb_spec (ch "`") c) as [<-|]; [discriminate Hc|reflexivity].
Qed.

Lemma space_not_brace (c : N) (r : jsstring) :
  is_js_space c = true -> body_here (c :: r) = None.
Proof.
  intros Hc. cbn [body_here].
  destruct (N.eqb_spec c (ch "{")) as [->|]; [discriminate Hc|reflexivity].
Qed.

Section CodeBlock.
(** The continuation run after the whole expression has matched: it always
    succeeds and hands on the captured group. *)
Variable kf : cont match_result.
Hypothesis kf_total :
  forall rest cap, exists m, kf rest cap = Some m /\ group1 m = cap.

Lemma rmatch_close (s : jsstring) (cap : option jsstring) :
  rmatch re_fence_close s cap kf =
  match strip_prefix backticks (drop_while is_js_space s) with
  | Some r => kf r cap
  | None => None
  end.
Proof.
  unfold re_fence_close. cbn [rmatch].
  rewrite star_greedy_all.
  - apply rmatch_lit.
  - intros c r cp Hc. rewrite rmatch_lit, space_not_backtick; auto.
Qed.

Lemma rmatch_close_none (s : jsstring) (cap : option jsstring) :
  rmatch re_fence_close s cap kf = None <-> closes_fence s = false.
Proof.
  rewrite rmatch_close. unfold closes_fence.
  destruct (strip_prefix backticks (drop_while is_js_space s)) as [r|].
  - destruct (kf_total r cap) as [m [-> _]]. split; discriminate.
  - tauto.
Qed.

Lemma rmatch_body (s : jsstring) (cap : option jsstring) :
  option_map group1 (rmatch (RSeq re_fence_body re_fence_close) s cap kf)
  = option_map Some (body_here s).
Proof.
  unfold re_fence_body.
  change (rmatch (RSeq (RGroup ?g) re_fence_close) s cap kf)
    with (rmatch g s cap
            (fun s1 _ =>
               rmatch re_fence_close s1
                 (Some (firstn (List.length s - List.length s1) s)) kf)).
  destruct s as [|b t]; [reflexivity|].
  cbn [rmatch body_here].
  destruct (b =? ch "{")%N; [|reflexivity].
  rewrite (star_lazy_first
             (fun s2 =>
                rmatch re_fence_close s2
                  (Some (firstn (List.length (b :: t) - List.length s2) (b :: t)))
                  kf)).
  2:{ intros s2. apply rmatch_close_none. }
  destruct (fence_body t) as [p|] eqn:E; [|reflexivity].
  apply fence_body_closes in E. destruct E as [rest [-> Hc]].
  rewrite skipn_app, skipn_all, Nat.sub_diag. cbn [skipn app].
  rewrite rmatch_close. unfold closes_fence in Hc.
  destruct (strip_prefix backticks (drop_while is_js_space rest)) as [r|];
    [|discriminate].
  destruct (kf_total r
              (Some (firstn (List.length (b :: p ++ rest) - List.length rest)
                       (b :: p ++ rest)))) as [m [-> Hm]].
  cbn [option_map]. rewrite Hm. do 2 f_equal.
  cbn [List.length]. rewrite length_app.
  replace (S (List.length p + List.length rest) - List.length rest)
    with (S (List.length p)) by lia.
  cbn [firstn]. f_equal.
  rewrite firstn_app, firstn_all, Nat.sub_diag. cbn [firstn]. apply app_nil_r.
Qed.

Lemma rmatch_spaces_body (s : jsstring) (cap : option jsstring) :
  rmatch (RSeq (RStar is_js_space) (RSeq re_fence_body re_fence_close)) s cap kf
  = rmatch (RSeq re_fence_body re_fence_close) (drop_while is_js_space s) cap kf.
Proof.
  change (rmatch (RSeq (RStar is_js_space) ?r) s cap kf)
    with (star_greedy is_js_space s cap (fun s1 c1 => rmatch r s1 c1 kf)).
  apply (star_greedy_all is_js_space
           (fun s1 c1 => rmatch (RSeq re_fence_body re_fence_close) s1 c1 kf)).
  intros c r cp Hc.
  pose proof (rmatch_body (c :: r) cp) as H.
  rewrite (@space_not_brace c r Hc) in H.
  destruct (rmatch (RSeq re_fence_body re_fence_close) (c :: r) cp kf);
    [discriminate H | reflexivity].
Qed.

Lemma rmatch_tag (s : jsstring) (cap : option jsstring) :
  option_map group1
    (rmatch (RSeq (ROpt (rlit (lit "json")))
               (RSeq (RStar is_js_space) (RSeq re_fence_body re_fence_close)))
       s cap kf)
  = option_map Some
      (match skip_tag false s with
       | Some r1 => body_here (drop_while is_js_space r1)
       | None => None
       end).
Proof.
  set (rest := RSeq (RStar is_js_space) (RSeq re_fence_body re_fence_close)).
  change (rmatch (RSeq (ROpt (rlit (lit "json"))) rest) s cap kf)
    with (match rmatch (rlit (lit "json")) s cap
                  (fun s1 c1 => rmatch rest s1 c1 kf) with
          | Some x => Some x
          | None => rmatch rest s cap kf
          end).
  rewrite rmatch_lit. unfold skip_tag.
  destruct (strip_prefix (lit "json") s) as [r|] eqn:E.
  - pose proof (rmatch_body (drop_while is_js_space r) cap) as Hr.
    subst rest. rewrite (rmatch_spaces_body r).
    destruct (rmatch (RSeq re_fence_body re_fence_close)
                (drop_while is_js_space r) cap kf) as [m|]; [exact Hr|].
    rewrite <- Hr. rewrite (rmatch_spaces_body s).
    apply strip_prefix_app in E. subst s.
    change (drop_while is_js_space (lit "json" ++ r)) with (lit "json" ++ r).
    pose proof (rmatch_body (lit "json" ++ r) cap) as Hj.
    change (body_here (lit "json" ++ r)) with (@None jsstring) in Hj.
    exact Hj.
  - subst rest. rewrite (rmatch_spaces_body s). apply rmatch_body.
Qed.

Lemma rmatch_code_block (s : jsstring) :
  option_map group1 (rmatch re_code_block s None kf)
  = option_map Some (fence_here false s).
Proof.
  unfold re_code_block.
  change (rmatch (RSeq (rlit backticks) ?r) s None kf)
    with (rmatch (rlit backticks) s None (fun s1 c1 => rmatch r s1 c1 kf)).
  rewrite rmatch_lit. unfold fence_here.
  destruct (strip_prefix backticks s) as [r|]; [|reflexivity].
  apply rmatch_tag.
Qed.

End CodeBlock.

(** The first regular expression captures the body of the first code fence,
    tagged json or not tagged at all. *)
Lemma str_match_code_block (s : jsstring) :
  option_map group1 (str_match re_code_block s)
  = option_map Some (find_fence false s).
Proof.
  induction s as [|x s IH].
  - reflexivity.
  - cbn [str_match find_fence].
    pose proof (@rmatch_code_block
                  (fun rest cap =>
                     Some (mkMatch
                             (firstn (List.length (x :: s) - List.length rest)
                                (x :: s)) cap))) as H.
    specialize (H (fun rest cap => ex_intro _ _ (conj eq_refl eq_refl)) (x :: s)).
    fold (match_here re_code_block (x :: s)) in H.
    destruct (match_here re_code_block (x :: s)) as [m|];
      destruct (fence_here false (x :: s)) as [b|];
      try discriminate H; [exact H | exact IH].
Qed.

(* ================================================================== *)
(** * The response coercer *)
(* ================================================================== *)

Lemma console_only_refl (w : World) : console_only w w.
Proof.
  repeat split. exists []. split; [symmetry; apply app_nil_r | reflexivity].
Qed.

Lemma console_only_event (w : World) (l : console_level) (s : console_site) :
  console_only w (add_event (EvConsole l s) w).
Proof.
  repeat split. exists [EvConsole l s]. split; reflexivity.
Qed.

Lemma console_only_trans (w1 w2 w3 : World) :
  console_only w1 w2 -> console_only w2 w3 -> console_only w1 w3.
Proof.
  intros (A1 & A2 & A3 & A4 & A5 & A6 & A7 & A8 & e1 & T1 & F1)
         (B1 & B2 & B3 & B4 & B5 & B6 & B7 & B8 & e2 & T2 & F2).
  repeat split; try congruence.
  exists (e1 ++ e2). split.
  - rewrite T2, T1, app_assoc. reflexivity.
  - rewrite forallb_app, F1, F2. reflexivity.
Qed.

(** Step (b) of the coercer returns what the braces of the input parse to. *)
Lemma coerce_direct_value (s : jsstring) (w : World) :
  exists w', coerce_direct s w = (Ok (coerce_braces s), w')
             /\ console_only w w'.
Proof.
  unfold coerce_direct, coerce_braces. rewrite str_match_object.
  destruct (brace_span s) as [t|].
  - cbn [matched]. destruct (JSON_parse t) as [v|].
    + exists w. split; [reflexivity | apply console_only_refl].
    + eexists. split; [reflexivity | apply console_only_event].
  - exists w. split; [reflexivity | apply console_only_refl].
Qed.

(** On a string, [coerceJson] returns what steps (a) and (b) describe, the
    tag of the fence being optional. *)
Lemma coerceJson_string (s : jsstring) (w : World) :
  exists w', coerceJson (VString s) w = (Ok (coerce_described false s), w')
             /\ console_only w w'.
Proof.
  unfold coerceJson, coerce_described.
  destruct s as [|x s].
  { exists w. split; [reflexivity | apply console_only_refl]. }
  cbn [truthy negb].
  pose proof (str_match_code_block (x :: s)) as H.
  destruct (str_match re_code_block (x :: s)) as [m|];
    destruct (find_fence false (x :: s)) as [b|]; try discriminate H.
  - cbn [option_map] in H. injection H as H. rewrite H. cbn [parse_opt].
    destruct (JSON_parse b) as [v|].
    + exists w. split; [reflexivity | apply console_only_refl].
    + destruct (coerce_direct_value (x :: s)
                  (add_event (EvConsole Warn Site_code_block_parse_failed) w))
        as [w' [E F]].
      exists w'. split.
      * unfold bind, console. rewrite E. reflexivity.
      * eapply console_only_trans; [apply console_only_event | exact F].
  - apply coerce_direct_value.
Qed.

(** On anything else that is truthy, it throws. *)
Lemma coerceJson_not_string (v : value) (w : World) :
  truthy v = true -> (forall s, v <> VString s) ->
  coerceJson v w = (Throw TypeError, w).
Proof.
  intros T N. unfold coerceJson. rewrite T. cbn [negb].
  destruct v; try reflexivity. exfalso. eapply N; reflexivity.
Qed.

(** The coercer returns an object or null. *)
Lemma coerce_braces_object (s : jsstring) :
  coerce_braces s = VNull \/ is_object (coerce_braces s) = true.
Proof.
  unfold coerce_braces, brace_span.
  destruct (from_first (ch "{") s) as [[|b t]|] eqn:E; auto.
  destruct (upto_last (ch "}") t) as [body|]; auto.
  destruct (JSON_parse (b :: body)) as [v|] eqn:P; auto.
  right. assert (b = ch "{").
  { clear P. induction s as [|x s IH]; [discriminate|].
    cbn [from_first] in E. destruct (N.eqb_spec x (ch "{")) as [->|].
    - inversion E; reflexivity.
    - apply IH, E. }
  subst b. eapply JSON_parse_brace, P.
Qed.

Lemma fence_here_brace (tag : bool) (s b : jsstring) :
  fence_here tag s = Some b -> exists t, b = ch "{" :: t.
Proof.
  unfold fence_here.
  destruct (strip_prefix backticks s) as [r|]; [|discriminate].
  destruct (skip_tag tag r) as [r1|]; [|discriminate].
  unfold body_here. destruct (drop_while is_js_space r1) as [|c t]; [discriminate|].
  destruct (N.eqb_spec c (ch "{")) as [->|]; [|discriminate].
  destruct (fence_body t) as [body|]; [|discriminate].
  intros H; inversion H. eexists; reflexivity.
Qed.

Lemma find_fence_brace (tag : bool) (s b : jsstring) :
  find_fence tag s = Some b -> exists t, b = ch "{" :: t.
Proof.
  induction s as [|x s IH]; cbn [find_fence].
  - destruct (fence_here tag []) eqn:E; [|discriminate].
    intros H; inversion H; subst. eapply fence_here_brace, E.
  - destruct (fence_here tag (x :: s)) eqn:E; [|exact IH].
    intros H; inversion H; subst. eapply fence_here_brace, E.
Qed.

Lemma coerce_described_object (tag : bool) (s : jsstring) :
  coerce_described tag s = VNull \/ is_object (coerce_described tag s) = true.
Proof.
  unfold coerce_described.
  destruct (find_fence tag s) as [b|] eqn:E; [|apply coerce_braces_object].
  destruct (JSON_parse b) as [v|] eqn:P; [|apply coerce_braces_object].
  right. apply find_fence_brace in E. destruct E as [t ->].
  eapply JSON_parse_brace, P.
Qed.

(* ================================================================== *)
(** * The generation routine *)
(* ================================================================== *)

Ltac settle :=
  eexists; split; [reflexivity | repeat split; cbn; try reflexivity; lia].

(** The warnings after the coercer change nothing but the console. *)
Lemma parse_warning (parsed : value) (w : World) :
  exists w',
    (if negb (truthy parsed) || negb (truthy (get parsed P_summary))
     then (console Warn Site_parse_failed_raw_text ;;;
           console Warn Site_parse_failed_parsed)%js
     else ret tt) w = (Ok tt, w')
    /\ console_only w w'.
Proof.
  destruct (negb (truthy parsed) || negb (truthy (get parsed P_summary))).
  - eexists; split; [reflexivity|].
    eapply console_only_trans; apply console_only_event.
  - eexists; split; [reflexivity | apply console_only_refl].
Qed.

(** One run: the routine returns, the entry carries the first unused random
    draw and the time at which the run began, and its content is the
    parsed completion merged over the fallback record, or the fallback
    record itself when there is none. *)
Lemma run_entry (p : jsstring) (w : World) :
  exists w',
    runClarityOnServer p w =
      (Ok (match parsed_completion w p with
           | Some v =>
               merged_entry (uuid_of (random w (draws w))) p
                 (toISOString (clock w)) v
           | None =>
               fallback_entry p (toISOString (clock w))
                 (uuid_of (random w (draws w)))
           end), w')
    /\ draws w' = S (draws w) /\ random w' = random w
    /\ clock w' = (clock w + upstream_elapsed w p)%Z.
Proof.
  unfold runClarityOnServer, parsed_completion, upstream_json,
    upstream_elapsed, credential, exchange.
  destruct (env_GEMINI_API_KEY w) as [[|c k]|] eqn:Ek; try settle.
  unfold bind at 1. unfold Date_now_iso at 1. cbv beta iota.
  unfold try_catch, generate. unfold bind at 1. unfold fetch at 1.
  destruct (reply (network w (exchanges w) (gemini_request (c :: k) p)))
    as [r|] eqn:Er; [|settle].
  unfold bind at 1.
  destruct (reply_ok r) eqn:Eok; cbn [negb].
  2:{ unfold reply_text. destruct (reply_body r); settle. }
  unfold ret at 1. cbv beta iota.
  unfold bind at 1. unfold reply_json.
  destruct (reply_body r) as [t|]; [|settle].
  destruct (JSON_parse t) as [json|]; [|settle].
  unfold ret at 1. cbv beta iota zeta.
  unfold bind at 1.
  destruct (truthy (completion_text json)) eqn:Et; cbn [negb].
  2:{ destruct (completion_text json) as [| | | |[|x s]| |];
        try discriminate Et; settle. }
  unfold ret at 1. cbv beta iota.
  set (w1 := mkWorld _ _ _ _ _ _ _ _ _).
  unfold bind at 1.
  assert (Hns : (exists s, completion_text json = VString s)
                \/ (forall s, completion_text json <> VString s)).
  { destruct (completion_text json); try (right; discriminate).
    left; eexists; reflexivity. }
  destruct Hns as [[s Hs]|Hns].
  - rewrite Hs in *. destruct s as [|x s]; [discriminate Et|].
    destruct (coerceJson_string (x :: s) w1) as [w2 [E F]].
    rewrite E. unfold bind at 1.
    destruct (parse_warning (coerce_described false (x :: s)) w2)
      as [w3 [E3 F3]].
    rewrite E3. pose proof (console_only_trans F F3) as G.
    destruct G as (_ & _ & _ & G4 & G5 & G6 & _).
    eexists. split.
    { unfold bind, randomUUID, ret. rewrite G5, G6. reflexivity. }
    cbn. rewrite G4. repeat split; reflexivity.
  - rewrite (coerceJson_not_string _ Et Hns).
    destruct (completion_text json) as [| | | |s| |]; try settle.
    exfalso. eapply Hns; reflexivity.
Qed.

(** Merging null is falling back. *)
Lemma merged_null (u p now : jsstring) :
  merged_entry u p now VNull = fallback_entry p now u.
Proof. reflexivity. Qed.

Lemma no_key_credential (w : World) :
  no_key (env_GEMINI_API_KEY w) = true <-> credential w = None.
Proof.
  unfold no_key, credential.
  destruct (env_GEMINI_API_KEY w) as [[|c k]|]; split; congruence.
Qed.

(** On every failure path there is nothing to merge. *)
Lemma failure_path_fallback (w : World) (p : jsstring) :
  failure_path w p ->
  parsed_completion w p = None \/ parsed_completion w p = Some VNull.
Proof.
  unfold parsed_completion, upstream_json.
  intros [H|key H1 H2|key r H1 H2 H3|key r H1 H2 H3 H4|json H1 H2|json H1 H2
          |json s H1 H2 H3].
  - apply no_key_credential in H. rewrite H. auto.
  - rewrite H1, H2. auto.
  - rewrite H1, H2, H3. auto.
  - rewrite H1, H2, H3. unfold parse_opt in H4.
    destruct (reply_body r); [rewrite H4|]; auto.
  - unfold upstream_json in H1. rewrite H1.
    destruct (completion_text json) as [| | | |[|x s]| |]; auto; discriminate.
  - unfold upstream_json in H1. rewrite H1.
    destruct (completion_text json) as [| | | |[|x s]| |]; auto.
    exfalso; eapply H2; reflexivity.
  - unfold upstream_json in H1. rewrite H1, H2.
    destruct s; [auto | rewrite H3; auto].
Qed.

Lemma uuid_hex_length (r : N) (from count : nat) :
  List.length (uuid_hex r from count) = 2 * count.
Proof.
  unfold uuid_hex. revert from. induction count as [|n IH]; intros from.
  - reflexivity.
  - cbn [seq flat_map]. rewrite length_app, IH. cbn. lia.
Qed.

(** A UUID has 36 characters. *)
Lemma uuid_of_length (r : N) : List.length (uuid_of r) = 36.
Proof.
  unfold uuid_of. repeat rewrite length_app. repeat rewrite uuid_hex_length.
  reflexivity.
Qed.

Lemma uuid_of_nonempty (r : N) : uuid_of r <> [].
Proof.
  intros H. pose proof (uuid_of_length r) as L. rewrite H in L. discriminate.
Qed.

Lemma digits_pad_length (width : nat) (n : N) :
  List.length (digits_pad width n) = width.
Proof.
  revert n; induction width as [|k IH]; intros n; cbn [digits_pad];
    [reflexivity|].
  rewrite length_app, IH. cbn. lia.
Qed.

(** An ISO timestamp has at least 24 characters. *)
Lemma toISOString_length (t : Z) : 24 <= List.length (toISOString t).
Proof.
  unfold toISOString. destruct (civil_from_days (t / 86400000)) as [[y m] d].
  repeat rewrite length_app. unfold pad. repeat rewrite digits_pad_length.
  assert (4 <= List.length (iso_year y)).
  { unfold iso_year, pad.
    destruct ((0 <=? y)%Z && (y <=? 9999)%Z).
    - rewrite digits_pad_length. lia.
    - rewrite length_app, digits_pad_length. lia. }
  change (List.length (lit "-")) with 1. change (List.length (lit "T")) with 1.
  change (List.length (lit ":")) with 1. change (List.length (lit ".")) with 1.
  change (List.length (lit "Z")) with 1. lia.
Qed.

Lemma toISOString_nonempty (t : Z) : toISOString t <> [].
Proof.
  intros H. pose proof (toISOString_length t) as L. rewrite H in L.
  cbn in L. lia.
Qed.

Lemma coalesce_present (a b : value) :
  nullish b = false -> nullish (coalesce a b) = false.
Proof. unfold coalesce. destruct (nullish a) eqn:E; auto. Qed.

(** The fields of the entry of one run, whichever branch built it. *)
Lemma entry_fields (o : option value) (u p now : jsstring) :
  let e := match o with
           | Some v => merged_entry u p now v
           | None => fallback_entry p now u
           end in
  let parsed := match o with Some v => v | None => VNull end in
  id e = u /\ prompt e = p /\ createdAt e = now
  /\ summary e = coalesce (get parsed P_summary) (fb_summary fallbackEntry)
  /\ feelings e = coalesce (get parsed P_feelings) (fb_feelings fallbackEntry)
  /\ actionPlan e
     = coalesce (get parsed P_actionPlan) (fb_actionPlan fallbackEntry)
  /\ reflectionPrompts e
     = coalesce (get parsed P_reflectionPrompts)
         (fb_reflectionPrompts fallbackEntry).
Proof. destruct o; repeat split; reflexivity. Qed.

(** A merged field is the fallback's or a present parsed one. *)
Lemma coalesce_cases (a b : value) :
  coalesce a b = b \/ (present a /\ coalesce a b = a).
Proof.
  unfold coalesce, present. destruct (nullish a); [left | right]; auto.
Qed.

Lemma merged_field (w : World) (p : jsstring) (q : prop) (fb x : value) :
  x = coalesce
        (get (match parsed_completion w p with Some v => v | None => VNull end)
           q) fb ->
  x = fb
  \/ exists parsed, parsed_completion w p = Some parsed
                    /\ present (get parsed q) /\ x = get parsed q.
Proof.
  intros ->. destruct (parsed_completion w p) as [v|].
  - destruct (coalesce_cases (get v q) fb) as [H|[H1 H2]]; [left; exact H|].
    right. exists v. auto.
  - left. reflexivity.
Qed.

(** C1, as amended.  For every prompt string the generation routine returns
    an entry and never raises.  The prompt field equals the input exactly,
    the identifier and the timestamp are non-empty, and every content field
    is present: it is the Fallback Record's value, which is non-empty, or
    the value the parsed completion supplies for it, which is used as it is
    (and so may be empty).  Every failure path (missing credential,
    transport failure, non-success status, unreadable body, empty or
    non-string completion text, parse failure) resolves to the
    fallback-populated entry, every field of which is non-empty when the
    prompt is. *)
Theorem generation_never_raises (p : jsstring) (w : World) :
  exists e w',
    runClarityOnServer p w = (Ok e, w')
    /\ prompt e = p
    /\ id e <> [] /\ createdAt e <> []
    /\ present (summary e) /\ present (feelings e)
    /\ present (actionPlan e) /\ present (reflectionPrompts e)
    /\ (summary e = fb_summary fallbackEntry
        \/ exists parsed, parsed_completion w p = Some parsed
             /\ present (get parsed P_summary)
             /\ summary e = get parsed P_summary)
    /\ (feelings e = fb_feelings fallbackEntry
        \/ exists parsed, parsed_completion w p = Some parsed
             /\ present (get parsed P_feelings)
             /\ feelings e = get parsed P_feelings)
    /\ (actionPlan e = fb_actionPlan fallbackEntry
        \/ exists parsed, parsed_completion w p = Some parsed
             /\ present (get parsed P_actionPlan)
             /\ actionPlan e = get parsed P_actionPlan)
    /\ (reflectionPrompts e = fb_reflectionPrompts fallbackEntry
        \/ exists parsed, parsed_completion w p = Some parsed
             /\ present (get parsed P_reflectionPrompts)
             /\ reflectionPrompts e = get parsed P_reflectionPrompts)
    /\ nonempty (fb_summary fallbackEntry)
    /\ nonempty (fb_feelings fallbackEntry)
    /\ nonempty (fb_actionPlan fallbackEntry)
    /\ nonempty (fb_reflectionPrompts fallbackEntry)
    /\ (failure_path w p ->
        e = fallback_entry p (toISOString (clock w))
              (uuid_of (random w (draws w)))
        /\ (p <> [] -> entry_nonempty e)).
Proof.
  destruct (run_entry p w) as (w' & E & _).
  eexists. exists w'. split; [exact E|].
  destruct (entry_fields (parsed_completion w p)
              (uuid_of (random w (draws w))) p (toISOString (clock w)))
    as (Hid & Hp & Hc & Hs & Hf & Ha & Hr).
  cbv zeta in *.
  split; [exact Hp|].
  split; [rewrite Hid; apply uuid_of_nonempty|].
  split; [rewrite Hc; apply toISOString_nonempty|].
  split; [rewrite Hs; apply coalesce_present; reflexivity|].
  split; [rewrite Hf; apply coalesce_present; reflexivity|].
  split; [rewrite Ha; apply coalesce_present; reflexivity|].
  split; [rewrite Hr; apply coalesce_present; reflexivity|].
  split; [eapply merged_field, Hs|].
  split; [eapply merged_field, Hf|].
  split; [eapply merged_field, Ha|].
  split; [eapply merged_field, Hr|].
  split; [exact I|]. split; [exact I|]. split; [exact I|]. split; [exact I|].
  intros F. apply failure_path_fallback in F.
  assert (Hfb : match parsed_completion w p with
                | Some v =>
                    merged_entry (uuid_of (random w (draws w))) p
                      (toISOString (clock w)) v
                | None =>
                    fallback_entry p (toISOString (clock w))
                      (uuid_of (random w (draws w)))
                end
                = fallback_entry p (toISOString (clock w))
                    (uuid_of (random w (draws w)))).
  { destruct F as [-> | ->]; reflexivity. }
  split; [exact Hfb|].
  intros Hne. rewrite Hfb. unfold entry_nonempty. cbn.
  repeat split; auto using uuid_of_nonempty, toISOString_nonempty.
Qed.

(** C1, as stated, fails: a prompt that is not empty, a credential, and an
    upstream completion [{"summary":""}] give an entry whose summary is the
    empty string. *)
Lemma empty_summary_entry :
  exists e w',
    runClarityOnServer (lit "hi")
      (server (Some (lit "k")) (answering 200 empty_summary_document))
    = (Ok e, w')
    /\ summary e = VString []
    /\ ~ entry_nonempty e.
Proof.
  eexists. eexists. split; [vm_compute; reflexivity|].
  split; [reflexivity|].
  intros (_ & _ & H & _). exact H.
Qed.

Lemma parsed_completion_string (w : World) (p : jsstring) (json : value)
  (s : jsstring) :
  upstream_json w p = Some json -> completion_text json = VString s ->
  s <> [] -> parsed_completion w p = Some (coerce_described false s).
Proof.
  intros H1 H2 H3. unfold parsed_completion. rewrite H1, H2.
  destruct s; [contradiction | reflexivity].
Qed.

Lemma coalesce_absent (a b : value) : ~ present a -> coalesce a b = b.
Proof.
  unfold present, coalesce. destruct (nullish a); [reflexivity | congruence].
Qed.

Lemma coalesce_use (a b : value) : present a -> coalesce a b = a.
Proof. unfold present, coalesce. intros ->. reflexivity. Qed.

(** C2.  When the upstream completion text (a non-empty string) is parsed,
    the returned entry is merged field by field, each field on its own: for
    summary, feelings, actionPlan and reflectionPrompts it holds the parsed
    value when that is present (the parsed object has the property and it is
    not null) and the Fallback Record's value otherwise.  In particular,
    for a parsed object that holds only a summary, the entry uses that
    summary and the fallback values of the other three fields. *)
Theorem merge_per_field (p : jsstring) (w : World) (json : value)
  (s : jsstring) :
  upstream_json w p = Some json ->
  completion_text json = VString s ->
  s <> [] ->
  exists e w',
    runClarityOnServer p w = (Ok e, w')
    /\ (present (get (coerce_described false s) P_summary) ->
        summary e = get (coerce_described false s) P_summary)
    /\ (~ present (get (coerce_described false s) P_summary) ->
        summary e = fb_summary fallbackEntry)
    /\ (present (get (coerce_described false s) P_feelings) ->
        feelings e = get (coerce_described false s) P_feelings)
    /\ (~ present (get (coerce_described false s) P_feelings) ->
        feelings e = fb_feelings fallbackEntry)
    /\ (present (get (coerce_described false s) P_actionPlan) ->
        actionPlan e = get (coerce_described false s) P_actionPlan)
    /\ (~ present (get (coerce_described false s) P_actionPlan) ->
        actionPlan e = fb_actionPlan fallbackEntry)
    /\ (present (get (coerce_described false s) P_reflectionPrompts) ->
        reflectionPrompts e
        = get (coerce_described false s) P_reflectionPrompts)
    /\ (~ present (get (coerce_described false s) P_reflectionPrompts) ->
        reflectionPrompts e = fb_reflectionPrompts fallbackEntry)
    /\ (forall v,
          coerce_described false s = VObject [(prop_name P_summary, v)] ->
          present v ->
          summary e = v
          /\ feelings e = fb_feelings fallbackEntry
          /\ actionPlan e = fb_actionPlan fallbackEntry
          /\ reflectionPrompts e = fb_reflectionPrompts fallbackEntry).
Proof.
  intros H1 H2 H3.
  destruct (run_entry p w) as (w' & E & _).
  rewrite (parsed_completion_string _ _ H1 H2 H3) in E.
  eexists. exists w'. split; [exact E|]. cbn [merged_entry summary feelings
    actionPlan reflectionPrompts].
  do 8 (split;
        [intros Hp; first [apply coalesce_use, Hp | apply coalesce_absent, Hp]|]).
  intros v Hv Pv. rewrite Hv. cbn.
  repeat split. apply coalesce_use, Pv.
Qed.

(** A run in which the completion is the object [{"summary":"Rest."}]. *)
Lemma merge_per_field_witness :
  exists e w',
    runClarityOnServer (lit "hi")
      (server (Some (lit "k")) (answering 200 summary_only_document))
    = (Ok e, w')
    /\ summary e = VString (lit "Rest.")
    /\ feelings e = fb_feelings fallbackEntry
    /\ actionPlan e = fb_actionPlan fallbackEntry
    /\ reflectionPrompts e = fb_reflectionPrompts fallbackEntry.
Proof.
  destruct (@merge_per_field (lit "hi")
              (server (Some (lit "k")) (answering 200 summary_only_document))
              (match JSON_parse summary_only_document with
               | Some j => j
               | None => VNull
               end)
              (qlit "{'summary':'Rest.'}"))
    as (e & w' & E & _ & _ & _ & _ & _ & _ & _ & _ & H).
  - vm_compute. reflexivity.
  - vm_compute. reflexivity.
  - discriminate.
  - exists e, w'. split; [exact E|].
    apply (H (VString (lit "Rest."))).
    + vm_compute. reflexivity.
    + reflexivity.
Defined.

(** C6.  When the credential is absent, the entry the generation routine
    returns has exactly the Fallback Record's summary, feelings, actionPlan
    and reflectionPrompts, whatever the prompt. *)
Theorem no_credential_fallback (p : jsstring) (w : World) :
  no_key (env_GEMINI_API_KEY w) = true ->
  exists e w',
    runClarityOnServer p w = (Ok e, w')
    /\ summary e = fb_summary fallbackEntry
    /\ feelings e = fb_feelings fallbackEntry
    /\ actionPlan e = fb_actionPlan fallbackEntry
    /\ reflectionPrompts e = fb_reflectionPrompts fallbackEntry.
Proof.
  intros H. destruct (run_entry p w) as (w' & E & _).
  assert (N : parsed_completion w p = None).
  { unfold parsed_completion, upstream_json.
    apply no_key_credential in H. rewrite H. reflexivity. }
  rewrite N in E. eexists. exists w'. split; [exact E|].
  repeat split; reflexivity.
Qed.

(** A server without the environment variable. *)
Lemma no_credential_fallback_witness :
  exists e w',
    runClarityOnServer (lit "I feel stuck")
      (server None (answering 200 summary_only_document))
    = (Ok e, w')
    /\ summary e = fb_summary fallbackEntry
    /\ feelings e = fb_feelings fallbackEntry
    /\ actionPlan e = fb_actionPlan fallbackEntry
    /\ reflectionPrompts e = fb_reflectionPrompts fallbackEntry.
Proof.
  apply (@no_credential_fallback (lit "I feel stuck")
           (server None (answering 200 summary_only_document))).
  reflexivity.
Defined.

(** C8.  In every entry the generation routine returns, the identifier is
    the UUID it draws itself and the timestamp is the time read when the run
    began: the clock has moved on by the time the upstream call returns, and
    whatever the network answers (an id or a createdAt in the parsed object
    included) the two fields stay the same. *)
Theorem fresh_id_and_timestamp (p : jsstring) (w : World) :
  exists e w',
    runClarityOnServer p w = (Ok e, w')
    /\ id e = uuid_of (random w (draws w))
    /\ createdAt e = toISOString (clock w)
    /\ draws w' = S (draws w)
    /\ clock w' = (clock w + upstream_elapsed w p)%Z
    /\ forall net, exists e2 w2,
         runClarityOnServer p (with_network net w) = (Ok e2, w2)
         /\ id e2 = id e /\ createdAt e2 = createdAt e.
Proof.
  destruct (run_entry p w) as (w' & E & D & _ & C).
  destruct (entry_fields (parsed_completion w p)
              (uuid_of (random w (draws w))) p (toISOString (clock w)))
    as (Hid & _ & Hc & _).
  cbv zeta in *.
  eexists. exists w'. split; [exact E|].
  split; [exact Hid|]. split; [exact Hc|]. split; [exact D|].
  split; [exact C|].
  intros net. destruct (run_entry p (with_network net w)) as (w2 & E2 & _).
  destruct (entry_fields (parsed_completion (with_network net w) p)
              (uuid_of (random w (draws w))) p (toISOString (clock w)))
    as (Hid2 & _ & Hc2 & _).
  cbv zeta in *. cbn [with_network random draws clock] in E2.
  eexists. exists w2. split; [exact E2|].
  rewrite Hid, Hc. split; [exact Hid2 | exact Hc2].
Qed.

(** A run in which the parsed completion carries an id and a createdAt of
    its own: the entry has the UUID of the first draw and the time at which
    the run began, a second and a half before the upstream call returned. *)
Lemma upstream_id_is_ignored :
  exists e w',
    runClarityOnServer (lit "hi")
      (server (Some (lit "k")) (answering 200 impostor_document))
    = (Ok e, w')
    /\ summary e = VString (lit "Rest.")
    /\ id e = lit "00000000-0000-4000-8000-000000000000"
    /\ createdAt e = lit "2023-11-14T22:13:20.000Z"
    /\ clock w' = 1700000001500%Z.
Proof.
  eexists. eexists. split; [vm_compute; reflexivity|].
  repeat split.
Qed.

(** C9.  Two successive runs with the same prompt.  The first entry carries
    the next draw of the host and the second the draw after it, so the two
    identifiers differ exactly when those two draws give different UUIDs;
    the first timestamp is the clock read when the first run began and the
    second the clock read when the second began, which is the first reading
    moved by the duration of the first upstream exchange and by what the
    host's clock did between the calls, so the second instant is not
    earlier than the first exactly when the clock has not gone back. *)
Theorem successive_runs (p : jsstring) (w : World) (d : Z) :
  exists e1 w1 e2 w2,
    runClarityOnServer p w = (Ok e1, w1)
    /\ runClarityOnServer p (between_calls d w1) = (Ok e2, w2)
    /\ id e1 = uuid_of (random w (draws w))
    /\ id e2 = uuid_of (random w (S (draws w)))
    /\ createdAt e1 = toISOString (clock w)
    /\ createdAt e2 = toISOString (clock (between_calls d w1))
    /\ clock (between_calls d w1) = (clock w + upstream_elapsed w p + d)%Z
    /\ (id e1 <> id e2
        <-> uuid_of (random w (draws w)) <> uuid_of (random w (S (draws w))))
    /\ (clock w <= clock (between_calls d w1)
        <-> 0 <= upstream_elapsed w p + d)%Z.
Proof.
  destruct (run_entry p w) as (w1 & E1 & D1 & R1 & C1).
  destruct (run_entry p (between_calls d w1)) as (w2 & E2 & _).
  cbn [between_calls random draws clock] in E2.
  rewrite D1, R1, C1 in E2.
  destruct (entry_fields (parsed_completion w p)
              (uuid_of (random w (draws w))) p (toISOString (clock w)))
    as (I1 & _ & T1 & _).
  destruct (entry_fields (parsed_completion (between_calls d w1) p)
              (uuid_of (random w (S (draws w)))) p
              (toISOString (clock w + upstream_elapsed w p + d)))
    as (I2 & _ & T2 & _).
  cbv zeta in *.
  eexists. exists w1. eexists. exists w2.
  split; [exact E1|]. split; [exact E2|].
  split; [exact I1|]. split; [exact I2|].
  split; [exact T1|].
  cbn [between_calls clock]. rewrite C1.
  split; [exact T2|]. split; [reflexivity|].
  split; [rewrite I1, I2; reflexivity | lia].
Qed.

(** Two runs a second apart on a host whose draws differ. *)
Lemma successive_runs_witness :
  exists e1 w1 e2 w2,
    runClarityOnServer (lit "hi") (server None (answering 200 [])) = (Ok e1, w1)
    /\ runClarityOnServer (lit "hi") (between_calls 1000 w1) = (Ok e2, w2)
    /\ id e1 = lit "00000000-0000-4000-8000-000000000000"
    /\ id e2 = lit "00000000-0000-4000-8000-000000000001"
    /\ createdAt e1 = lit "2023-11-14T22:13:20.000Z"
    /\ createdAt e2 = lit "2023-11-14T22:13:21.000Z".
Proof.
  destruct (successive_runs (lit "hi") (server None (answering 200 [])) 1000)
    as (e1 & w1 & e2 & w2 & E1 & E2 & I1 & I2 & T1 & T2 & C & _).
  exists e1, w1, e2, w2.
  split; [exact E1|]. split; [exact E2|].
  split; [exact I1|]. split; [exact I2|].
  split; [exact T1|]. rewrite T2, C. reflexivity.
Defined.

(** C9, as stated, fails: on a host whose source of randomness repeats
    itself and whose clock is set back five seconds between the calls, two
    successive runs with the same prompt return the same identifier, and the
    second timestamp is the earlier one. *)
Lemma repeated_draw_and_clock_set_back :
  exists e1 w1 e2 w2,
    runClarityOnServer (lit "hi") (repeating_server None (answering 200 []))
    = (Ok e1, w1)
    /\ runClarityOnServer (lit "hi") (between_calls (-5000) w1) = (Ok e2, w2)
    /\ id e1 = id e2
    /\ createdAt e1 = lit "2023-11-14T22:13:20.000Z"
    /\ createdAt e2 = lit "2023-11-14T22:13:15.000Z".
Proof.
  eexists. eexists. eexists. eexists.
  split; [vm_compute; reflexivity|].
  split; [vm_compute; reflexivity|].
  repeat split.
Qed.

(* ================================================================== *)
(** * The response coercer: the claim *)
(* ================================================================== *)

(** C3, as amended.  Given any input string, the response coercer (a) first
    looks for a markdown code fence, tagged json or not tagged, that holds a
    brace-delimited body, and returns what the body parses to if it parses,
    falling through if it does not; (b) otherwise takes the substring of the
    whole input from the first opening brace to the last closing brace,
    returns null when there is none, what it parses to when it parses (an
    object), and null when it does not.  Absent input gives null, and only
    the console is touched. *)
Theorem coerceJson_described (s : jsstring) (w : World) :
  (exists w',
     coerceJson (VString s) w = (Ok (coerce_described false s), w')
     /\ console_only w w')
  /\ (forall fenced v,
        find_fence false s = Some fenced -> JSON_parse fenced = Some v ->
        coerce_described false s = v)
  /\ (parse_opt (find_fence false s) = None ->
      coerce_described false s = coerce_braces s)
  /\ (brace_span s = None -> coerce_braces s = VNull)
  /\ (forall t v, brace_span s = Some t -> JSON_parse t = Some v ->
                  coerce_braces s = v /\ is_object v = true)
  /\ (forall t, brace_span s = Some t -> JSON_parse t = None ->
                coerce_braces s = VNull)
  /\ coerceJson VUndefined w = (Ok VNull, w).
Proof.
  split; [apply coerceJson_string|].
  split.
  { intros fenced v H1 H2. unfold coerce_described. rewrite H1, H2. reflexivity. }
  split.
  { unfold coerce_described, parse_opt.
    destruct (find_fence false s) as [b|]; [|reflexivity].
    intros ->. reflexivity. }
  split.
  { unfold coerce_braces. intros ->. reflexivity. }
  split.
  { intros t v H1 H2.
    pose proof (coerce_braces_object s) as H.
    unfold coerce_braces in *. rewrite H1, H2 in *.
    split; [reflexivity|].
    destruct H as [-> | H]; [|exact H].
    exfalso. unfold brace_span in H1.
    destruct (from_first (ch "{") s) as [[|b t']|] eqn:E; try discriminate.
    destruct (upto_last (ch "}") t') as [body|]; [|discriminate].
    inversion H1; subst t.
    assert (b = ch "{").
    { clear H2 H1. induction s as [|x s IH]; [discriminate|].
      cbn [from_first] in E. destruct (N.eqb_spec x (ch "{")) as [->|].
      - inversion E; reflexivity.
      - apply IH, E. }
    subst b. apply JSON_parse_brace in H2. discriminate H2. }
  split.
  { intros t H1 H2. unfold coerce_braces. rewrite H1, H2. reflexivity. }
  reflexivity.
Qed.

(** C3, as stated, fails: in [untagged_fence] the fence carries no tag, so
    steps (a) and (b) with a fence that must be tagged json come to null
    (the braces of the whole input do not parse), while the coercer returns
    the object inside the fence. *)
Lemma untagged_fence_is_read :
  (exists w',
     coerceJson (VString untagged_fence) (server None (answering 200 []))
     = (Ok (VObject [(prop_name P_summary, VString (lit "ok"))]), w'))
  /\ find_fence true untagged_fence = None
  /\ coerce_described true untagged_fence = VNull.
Proof.
  split; [eexists; vm_compute; reflexivity|].
  split; vm_compute; reflexivity.
Qed.

(** A fence tagged json between two pieces of prose that hold braces of
    their own: the fenced object is what comes back. *)
Lemma tagged_fence_is_read :
  exists w',
    coerceJson (VString tagged_fence) (server None (answering 200 []))
    = (Ok (VObject [(prop_name P_summary, VString (lit "ok"))]), w').
Proof. eexists; vm_compute; reflexivity. Qed.

(* ================================================================== *)
(** * The report wrapper *)
(* ================================================================== *)

Lemma obj_get_set_same (m : list (jsstring * value)) (k : jsstring) (v : value) :
  obj_get (obj_set m k v) k = v.
Proof.
  induction m as [|[k' v'] m IH]; cbn [obj_set obj_get].
  - rewrite jsstring_eqb_refl. reflexivity.
  - destruct (jsstring_eqb k' k) eqn:E; cbn [obj_get].
    + rewrite jsstring_eqb_refl. reflexivity.
    + rewrite E. exact IH.
Qed.

Lemma obj_get_set_other (m : list (jsstring * value)) (k k' : jsstring)
  (v : value) :
  k <> k' -> obj_get (obj_set m k v) k' = obj_get m k'.
Proof.
  intros Hne. induction m as [|[k0 v0] m IH]; cbn [obj_set obj_get].
  - apply jsstring_eqb_neq in Hne. rewrite Hne. reflexivity.
  - destruct (jsstring_eqb k0 k) eqn:E; cbn [obj_get].
    + apply jsstring_eqb_eq in E. subst k0.
      apply jsstring_eqb_neq in Hne. rewrite Hne. reflexivity.
    + rewrite IH. reflexivity.
Qed.

Lemma prop_name_report (q : prop) :
  q <> P_report -> prop_name P_report <> prop_name q.
Proof. destruct q; intros H; try discriminate. contradiction. Qed.

(** An index is not the name of a property other than 0. *)
Lemma index_name_not_prop (i : nat) (q : prop) :
  q <> P_0 -> jsstring_eqb (index_name i) (prop_name q) = false.
Proof.
  intros H. unfold index_name.
  destruct (Nat.to_uint i); destruct q; try contradiction; reflexivity.
Qed.

Lemma indexed_other (q : prop) (l : list value) :
  q <> P_0 -> forall i, obj_get (indexed i l) (prop_name q) = VUndefined.
Proof.
  intros H. induction l as [|x l IH]; intros i; cbn [indexed obj_get].
  - reflexivity.
  - rewrite (index_name_not_prop i H). apply IH.
Qed.

Lemma indexed_get (q : prop) (l : list value) :
  obj_get (indexed 0 l) (prop_name q)
  = match q, l with
    | P_0, x :: _ => x
    | _, _ => VUndefined
    end.
Proof.
  assert (D : q = P_0 \/ q <> P_0) by (destruct q; auto; right; discriminate).
  destruct D as [-> | H].
  - destruct l; reflexivity.
  - rewrite indexed_other by exact H. destruct q, l; try reflexivity; contradiction.
Qed.

(** The properties copied from a value are the ones it has. *)
Lemma spread_get (data : value) (q : prop) :
  obj_get (spread data) (prop_name q) = get data q.
Proof.
  destruct data as [| | | |s|l|m]; try reflexivity.
  - cbn [spread get]. rewrite indexed_get. destruct q, s; reflexivity.
  - cbn [spread get]. apply indexed_get.
Qed.

(** C4, as amended.  For every prompt, the report wrapper returns all fields
    of the entry it obtained plus a report field that equals the entry's
    summary, the canned sentence standing in only when the summary is null
    or undefined.  On the server the entry is the generation routine's and
    its summary is always present; in a browser the entry is what the body
    of the endpoint's answer parses to. *)
Theorem report_is_summary (p : jsstring) (w : World) :
  (has_window w = false ->
   exists e w' r,
     runClarityOnServer p w = (Ok e, w')
     /\ generateReport p w = (Ok r, w')
     /\ get r P_report = summary e
     /\ present (summary e)
     /\ get r P_id = VString (id e)
     /\ get r P_prompt = VString (prompt e)
     /\ get r P_summary = summary e
     /\ get r P_feelings = feelings e
     /\ get r P_actionPlan = actionPlan e
     /\ get r P_reflectionPrompts = reflectionPrompts e
     /\ get r P_createdAt = VString (createdAt e))
  /\ (has_window w = true ->
      forall r w', generateReport p w = (Ok r, w') ->
      exists rep t data,
        reply (network w (exchanges w) (endpoint_request (api_url w) p))
        = Some rep
        /\ reply_ok rep = true /\ reply_body rep = Some t
        /\ JSON_parse t = Some data
        /\ (present (get data P_summary) ->
            get r P_report = get data P_summary)
        /\ (~ present (get data P_summary) -> get r P_report = canned_report)
        /\ forall q, q <> P_report -> get r q = get data q).
Proof.
  split.
  - intros Hw. destruct (run_entry p w) as (w' & E & _).
    destruct (entry_fields (parsed_completion w p)
                (uuid_of (random w (draws w))) p (toISOString (clock w)))
      as (_ & _ & _ & Hs & _).
    cbv zeta in Hs.
    eexists. exists w'. eexists. split; [exact E|].
    split.
    { unfold generateReport. rewrite Hw. unfold bind. rewrite E. reflexivity. }
    assert (P : present
                  (summary
                     match parsed_completion w p with
                     | Some v =>
                         merged_entry (uuid_of (random w (draws w))) p
                           (toISOString (clock w)) v
                     | None =>
                         fallback_entry p (toISOString (clock w))
                           (uuid_of (random w (draws w)))
                     end)).
    { rewrite Hs. apply coalesce_present. reflexivity. }
    split.
    { cbn [get]. rewrite obj_get_set_same. apply coalesce_use, P. }
    split; [exact P|].
    repeat split; reflexivity.
  - intros Hw r w'. unfold generateReport. rewrite Hw.
    unfold report_from_endpoint, try_catch.
    unfold bind at 1. unfold fetch.
    destruct (reply (network w (exchanges w) (endpoint_request (api_url w) p)))
      as [rep|] eqn:Er; [|discriminate].
    unfold bind at 1.
    destruct (reply_ok rep) eqn:Eok; cbn [negb].
    2:{ unfold bind, try_catch, reply_text.
        destruct (reply_body rep); discriminate. }
    unfold ret at 1. cbv beta iota. unfold bind at 1. unfold reply_json.
    destruct (reply_body rep) as [t|] eqn:Eb; [|discriminate].
    destruct (JSON_parse t) as [data|] eqn:Ep; [|discriminate].
    unfold ret at 1. cbv beta iota. unfold bind, member.
    destruct (nullish data) eqn:En; [discriminate|].
    unfold ret. intros H. inversion H; subst r. clear H.
    exists rep, t, data.
    split; [reflexivity|]. split; [exact Eok|]. split; [exact Eb|].
    split; [exact Ep|].
    change (prop_name P_report) with (lit "report") in *.
    split; [|split].
    + intros Hp. cbn [get]. rewrite obj_get_set_same. apply coalesce_use, Hp.
    + intros Hp. cbn [get]. rewrite obj_get_set_same.
      apply coalesce_absent, Hp.
    + intros q Hq. cbn [get].
      rewrite obj_get_set_other by (apply prop_name_report, Hq).
      apply spread_get.
Qed.

(** C4, as stated, fails: with the completion [{"summary":""}] the summary
    of the obtained entry is the empty string, which is falsy, and the
    report is that empty string, not the canned sentence. *)
Lemma empty_summary_report :
  exists r w',
    generateReport (lit "hi")
      (server (Some (lit "k")) (answering 200 empty_summary_document))
    = (Ok r, w')
    /\ get r P_summary = VString []
    /\ truthy (get r P_summary) = false
    /\ get r P_report = VString []
    /\ get r P_report <> canned_report.
Proof.
  eexists. eexists. split; [vm_compute; reflexivity|].
  repeat split; try reflexivity. discriminate.
Qed.

(* ================================================================== *)
(** * The HTTP endpoint *)
(* ================================================================== *)

Lemma header_find_put_same (h : list (jsstring * jsstring)) (n v : jsstring) :
  header_find (header_put h n v) n = Some v.
Proof.
  induction h as [|[n' v'] h IH]; cbn [header_put header_find].
  - rewrite jsstring_eqb_refl. reflexivity.
  - destruct (jsstring_eqb n' n) eqn:E; cbn [header_find].
    + rewrite jsstring_eqb_refl. reflexivity.
    + rewrite E. exact IH.
Qed.

Lemma header_find_put_other (h : list (jsstring * jsstring))
  (n n' v : jsstring) :
  jsstring_eqb n n' = false ->
  header_find (header_put h n v) n' = header_find h n'.
Proof.
  intros Hne. induction h as [|[n0 v0] h IH]; cbn [header_put header_find].
  - rewrite Hne. reflexivity.
  - destruct (jsstring_eqb n0 n) eqn:E; cbn [header_find].
    + apply jsstring_eqb_eq in E. subst n0. rewrite Hne. reflexivity.
    + rewrite IH. reflexivity.
Qed.

Lemma setCorsHeaders_status (r : NextResponse) (o : option jsstring) :
  status (setCorsHeaders r o) = status r /\ body (setCorsHeaders r o) = body r.
Proof.
  unfold setCorsHeaders.
  destruct o as [o|]; [destruct (origin_allowed (Some o))|]; split; reflexivity.
Qed.

(** The test of [setCorsHeaders] is membership in the allow-list. *)
Lemma origin_allowed_In (o : jsstring) :
  origin_allowed (Some o) = true <-> In o allowedOrigins.
Proof.
  split.
  - destruct o as [|c o]; [discriminate|]. cbn [origin_allowed].
    unfold includes. rewrite existsb_exists. intros [x [Hx E]].
    apply jsstring_eqb_eq in E. subst x. exact Hx.
  - intros H. cbn [allowedOrigins In] in H.
    destruct H as [H|[H|[H|[H|[]]]]]; subst o; reflexivity.
Qed.

Ltac header_lookup :=
  unfold headers_get, headers_set;
  repeat (rewrite header_find_put_other by reflexivity);
  try apply header_find_put_same.

(** What [setCorsHeaders] leaves on a response that had no credentials
    header. *)
Lemma setCorsHeaders_applied (r : NextResponse) (origin : option jsstring) :
  headers_get (headers r) ACAC = None ->
  cors_applied origin (setCorsHeaders r origin).
Proof.
  intros Hc. unfold cors_applied, setCorsHeaders.
  destruct origin as [o|].
  - destruct (origin_allowed (Some o)) eqn:Ea.
    + split.
      { intros o' Ho _. inversion Ho; subst o'. cbn [headers set_header].
        split; header_lookup. }
      split.
      { intros Hn. exfalso. apply (Hn o eq_refl).
        apply origin_allowed_In, Ea. }
      cbn [headers set_header]. repeat split; header_lookup.
    + split.
      { intros o' Ho Hin. inversion Ho; subst o'.
        apply origin_allowed_In in Hin. congruence. }
      split.
      { intros _. cbn [headers set_header]. split; header_lookup.
        exact Hc. }
      cbn [headers set_header]. repeat split; header_lookup.
  - split; [discriminate|].
    split.
    { intros _. cbn [headers set_header]. split; header_lookup. exact Hc. }
    cbn [headers set_header]. repeat split; header_lookup.
Qed.

Lemma json_response_cors (v : value) (st : Z) (origin : option jsstring) :
  cors_applied origin (setCorsHeaders (json_response v st) origin).
Proof. apply setCorsHeaders_applied. reflexivity. Qed.

(** POST, with its binds and its [try] and [catch] carried out. *)
Lemma POST_unfold (req : NextRequest) (w : World) :
  POST req w =
  let w0 := add_event (EvConsole Log Site_post_request) w in
  match JSON_parse (req_body req) with
  | None =>
      (Ok (answer_500 (req_origin req)),
       add_event (EvConsole Error Site_diagnosis_api_error) w0)
  | Some b =>
      if truthy (get b P_prompt) then
        match get b P_prompt with
        | VString s =>
            match runClarityOnServer s
                    (add_event (EvConsole Log Site_processing_prompt) w0) with
            | (Ok e, w') => (Ok (answer_200 e (req_origin req)), w')
            | (Throw _, w') =>
                (Ok (answer_500 (req_origin req)),
                 add_event (EvConsole Error Site_diagnosis_api_error) w')
            end
        | _ =>
            (Ok (answer_500 (req_origin req)),
             add_event (EvConsole Error Site_diagnosis_api_error) w0)
        end
      else (Ok (answer_400 (req_origin req)), w0)
  end.
Proof.
  unfold POST, try_catch, request_json, diagnose, bind, console, ret, throw.
  cbv zeta.
  destruct (JSON_parse (req_body req)) as [b|]; [|reflexivity].
  destruct (truthy (get b P_prompt)); [|reflexivity]. cbn [negb].
  destruct (get b P_prompt) as [| | | |s| |]; try reflexivity.
  destruct (runClarityOnServer s _) as [[e|x] w']; reflexivity.
Qed.

(** Every path through POST. *)
Lemma POST_cases (req : NextRequest) (w : World) :
  match JSON_parse (req_body req) with
  | None =>
      exists w', POST req w = (Ok (answer_500 (req_origin req)), w')
                 /\ console_only w w'
  | Some b =>
      if truthy (get b P_prompt) then
        match get b P_prompt with
        | VString s =>
            exists e w1 w',
              console_only w w1
              /\ runClarityOnServer s w1 = (Ok e, w')
              /\ prompt e = s
              /\ POST req w = (Ok (answer_200 e (req_origin req)), w')
        | _ =>
            exists w', POST req w = (Ok (answer_500 (req_origin req)), w')
                       /\ console_only w w'
        end
      else
        exists w', POST req w = (Ok (answer_400 (req_origin req)), w')
                   /\ console_only w w'
  end.
Proof.
  rewrite POST_unfold. cbv zeta.
  set (w0 := add_event (EvConsole Log Site_post_request) w).
  assert (F0 : console_only w w0) by apply console_only_event.
  destruct (JSON_parse (req_body req)) as [b|].
  2:{ eexists. split; [reflexivity|].
      eapply console_only_trans; [exact F0 | apply console_only_event]. }
  destruct (truthy (get b P_prompt)) eqn:Et.
  2:{ eexists. split; [reflexivity | exact F0]. }
  destruct (get b P_prompt) as [| | | |s| |];
    try (eexists; split; [reflexivity|];
         eapply console_only_trans; [exact F0 | apply console_only_event]).
  set (w1 := add_event (EvConsole Log Site_processing_prompt) w0).
  destruct (run_entry s w1) as (w' & E & _).
  destruct (entry_fields (parsed_completion w1 s)
              (uuid_of (random w1 (draws w1))) s (toISOString (clock w1)))
    as (_ & Hp & _).
  cbv zeta in Hp.
  eexists. exists w1, w'.
  split; [eapply console_only_trans; [exact F0 | apply console_only_event]|].
  split; [exact E|]. split; [exact Hp|].
  rewrite E. reflexivity.
Qed.

Lemma answer_400_shape (o : option jsstring) :
  status (answer_400 o) = 400%Z
  /\ body (answer_400 o) = Some (error_payload "Prompt is required").
Proof. apply setCorsHeaders_status. Qed.

Lemma answer_500_shape (o : option jsstring) :
  status (answer_500 o) = 500%Z
  /\ body (answer_500 o) = Some (error_payload "Failed to generate diagnosis").
Proof. apply setCorsHeaders_status. Qed.

Lemma answer_200_shape (e : ClarityEntry) (o : option jsstring) :
  status (answer_200 e o) = 200%Z
  /\ body (answer_200 e o) = Some (VObject (entry_object e)).
Proof. apply setCorsHeaders_status. Qed.

(** C5, as amended.  A POST whose JSON body has an absent or empty prompt
    (any falsy prompt) is answered with status 400 and the payload
    [{ "error": "Prompt is required" }], and nothing but the console is
    touched: the generation routine is not invoked and no upstream call is
    made.  A POST whose prompt is a non-empty string invokes the generation
    routine on that string and is answered with status 200 and the resulting
    entry.  A body that does not parse, and a truthy prompt that is not a
    string, are caught and answered with status 500 and the payload
    [{ "error": "Failed to generate diagnosis" }]. *)
Theorem post_contract (req : NextRequest) (w : World) :
  (forall b,
     JSON_parse (req_body req) = Some b -> truthy (get b P_prompt) = false ->
     exists r w',
       POST req w = (Ok r, w')
       /\ status r = 400%Z
       /\ body r = Some (error_payload "Prompt is required")
       /\ console_only w w')
  /\ (forall b s,
        JSON_parse (req_body req) = Some b -> get b P_prompt = VString s ->
        s <> [] ->
        exists e w1 r w',
          console_only w w1
          /\ runClarityOnServer s w1 = (Ok e, w')
          /\ POST req w = (Ok r, w')
          /\ status r = 200%Z
          /\ body r = Some (VObject (entry_object e)))
  /\ (JSON_parse (req_body req) = None ->
      exists r w',
        POST req w = (Ok r, w')
        /\ status r = 500%Z
        /\ body r = Some (error_payload "Failed to generate diagnosis")
        /\ console_only w w')
  /\ (forall b,
        JSON_parse (req_body req) = Some b -> truthy (get b P_prompt) = true ->
        (forall s, get b P_prompt <> VString s) ->
        exists r w',
          POST req w = (Ok r, w')
          /\ status r = 500%Z
          /\ body r = Some (error_payload "Failed to generate diagnosis")
          /\ console_only w w').
Proof.
  pose proof (POST_cases req w) as H.
  split; [|split; [|split]].
  - intros b Hb Ht. rewrite Hb, Ht in H. destruct H as (w' & E & F).
    exists (answer_400 (req_origin req)), w'.
    destruct (answer_400_shape (req_origin req)). auto.
  - intros b s Hb Hs Hne. rewrite Hb, Hs in H.
    destruct s as [|x s]; [contradiction|]. cbn [truthy] in H.
    destruct H as (e & w1 & w' & F & E & _ & EP).
    exists e, w1, (answer_200 e (req_origin req)), w'.
    destruct (answer_200_shape e (req_origin req)). auto.
  - intros Hb. rewrite Hb in H. destruct H as (w' & E & F).
    exists (answer_500 (req_origin req)), w'.
    destruct (answer_500_shape (req_origin req)). auto.
  - intros b Hb Ht Hn. rewrite Hb, Ht in H.
    destruct (get b P_prompt) as [| | | |s| |];
      try (destruct H as (w' & E & F);
           exists (answer_500 (req_origin req)), w';
           destruct (answer_500_shape (req_origin req)); auto).
    exfalso. eapply Hn. reflexivity.
Qed.

(** C5, as stated, fails: the body [{"prompt": 5}] has a prompt, and the
    answer is 500, not 200. *)
Lemma numeric_prompt_is_an_error :
  exists b r w',
    JSON_parse (req_body (request_with None "{'prompt': 5}")) = Some b
    /\ present (get b P_prompt)
    /\ truthy (get b P_prompt) = true
    /\ POST (request_with None "{'prompt': 5}")
         (server (Some (lit "k")) (answering 200 summary_only_document))
       = (Ok r, w')
    /\ status r = 500%Z.
Proof.
  eexists. eexists. eexists.
  split; [vm_compute; reflexivity|].
  split; [reflexivity|]. split; [vm_compute; reflexivity|].
  split; [vm_compute; reflexivity|]. reflexivity.
Qed.

(** C10, as amended.  POST does not check that the prompt is a string.  It
    answers 400 exactly when the prompt of the parsed body is falsy (absent,
    null, the empty string, 0 or false).  A truthy prompt that is a string
    is forwarded unchanged to the generation routine and answered with 200
    and the entry; a truthy prompt of any other type (number, true, object,
    array) is not forwarded: reading its substring throws, the generation
    routine is not invoked, and the answer is 500. *)
Theorem post_prompt_type (req : NextRequest) (w : World) (b : value) :
  JSON_parse (req_body req) = Some b ->
  exists r w',
    POST req w = (Ok r, w')
    /\ (status r = 400%Z <-> truthy (get b P_prompt) = false)
    /\ (forall s,
          get b P_prompt = VString s -> s <> [] ->
          status r = 200%Z
          /\ exists e w1,
               console_only w w1
               /\ runClarityOnServer s w1 = (Ok e, w')
               /\ prompt e = s
               /\ body r = Some (VObject (entry_object e)))
    /\ (truthy (get b P_prompt) = true ->
        (forall s, get b P_prompt <> VString s) ->
        status r = 500%Z
        /\ body r = Some (error_payload "Failed to generate diagnosis")
        /\ console_only w w').
Proof.
  intros Hb. pose proof (POST_cases req w) as H. rewrite Hb in H.
  destruct (truthy (get b P_prompt)) eqn:Et.
  - destruct (get b P_prompt) as [| | | |s| |] eqn:Eg;
      try (destruct H as (w' & E & F);
           exists (answer_500 (req_origin req)), w';
           destruct (answer_500_shape (req_origin req)) as [S B];
           split; [exact E|]; rewrite S;
           split; [split; [discriminate | discriminate]|];
           split; [discriminate | auto]).
    destruct H as (e & w1 & w' & F & E & P & EP).
    exists (answer_200 e (req_origin req)), w'.
    destruct (answer_200_shape e (req_origin req)) as [S B].
    split; [exact EP|]. rewrite S.
    split; [split; discriminate|].
    split.
    + intros s' Hs' _. inversion Hs'; subst s'.
      split; [reflexivity|]. exists e, w1. auto.
    + intros _ Hn. exfalso. eapply Hn. reflexivity.
  - destruct H as (w' & E & F).
    exists (answer_400 (req_origin req)), w'.
    destruct (answer_400_shape (req_origin req)) as [S B].
    split; [exact E|]. rewrite S.
    split; [split; reflexivity|].
    split.
    + intros s Hs Hne. rewrite Hs in Et. destruct s; [contradiction|discriminate].
    + discriminate.
Qed.

(** A POST whose prompt is an object. *)
Lemma post_prompt_type_witness :
  exists r w',
    POST (request_with None "{'prompt': {'text': 'hello'}}")
      (server (Some (lit "k")) (answering 200 summary_only_document))
    = (Ok r, w')
    /\ status r = 500%Z.
Proof.
  destruct (@post_prompt_type
              (request_with None "{'prompt': {'text': 'hello'}}")
              (server (Some (lit "k")) (answering 200 summary_only_document))
              (VObject
                 [(lit "prompt",
                   VObject [(lit "text", VString (lit "hello"))])]))
    as (r & w' & E & _ & _ & H).
  - vm_compute. reflexivity.
  - exists r, w'. split; [exact E|]. apply H.
    + reflexivity.
    + discriminate.
Defined.

(** C10, as stated, fails: the prompt [[1]] is truthy and not a string, and
    it is not forwarded: the answer is 500, no UUID was drawn and no
    exchange took place. *)
Lemma array_prompt_is_not_forwarded :
  exists b r w',
    JSON_parse (req_body (request_with None "{'prompt': [1]}")) = Some b
    /\ truthy (get b P_prompt) = true
    /\ POST (request_with None "{'prompt': [1]}")
         (server (Some (lit "k")) (answering 200 summary_only_document))
       = (Ok r, w')
    /\ status r = 500%Z
    /\ draws w' = 0 /\ exchanges w' = 0
    /\ trace w' = [ EvConsole Log Site_post_request;
                    EvConsole Error Site_diagnosis_api_error ].
Proof.
  eexists. eexists. eexists.
  split; [vm_compute; reflexivity|].
  split; [reflexivity|].
  split; [vm_compute; reflexivity|].
  repeat split.
Qed.

(** C7.  On every response of the endpoint, the pre-flight answer and the
    200, 400 and 500 answers of POST alike: when the origin of the request
    is in the allow-list, that origin is echoed in
    Access-Control-Allow-Origin and Access-Control-Allow-Credentials is
    true; otherwise the first origin of the allow-list is set and there is
    no credentials header; the allowed methods, the allowed headers and the
    pre-flight cache duration are set in every case; and OPTIONS always
    answers 200. *)
Theorem cors_on_every_response (req : NextRequest) (w : World) :
  (exists r w',
     OPTIONS req w = (Ok r, w')
     /\ status r = 200%Z
     /\ cors_applied (req_origin req) r)
  /\ (exists r w',
        POST req w = (Ok r, w')
        /\ (status r = 200%Z \/ status r = 400%Z \/ status r = 500%Z)
        /\ cors_applied (req_origin req) r).
Proof.
  split.
  - eexists. eexists. split; [reflexivity|].
    split; [apply setCorsHeaders_status|].
    apply setCorsHeaders_applied. reflexivity.
  - pose proof (POST_cases req w) as H.
    destruct (JSON_parse (req_body req)) as [b|].
    + destruct (truthy (get b P_prompt)).
      * destruct (get b P_prompt) as [| | | |s| |];
          try (destruct H as (w' & E & _);
               exists (answer_500 (req_origin req)), w';
               split; [exact E|];
               split; [right; right; apply answer_500_shape
                      | apply json_response_cors]).
        destruct H as (e & w1 & w' & _ & _ & _ & E).
        exists (answer_200 e (req_origin req)), w'.
        split; [exact E|].
        split; [left; apply answer_200_shape | apply json_response_cors].
      * destruct H as (w' & E & _).
        exists (answer_400 (req_origin req)), w'.
        split; [exact E|].
        split; [right; left; apply answer_400_shape | apply json_response_cors].
    + destruct H as (w' & E & _).
      exists (answer_500 (req_origin req)), w'.
      split; [exact E|].
      split; [right; right; apply answer_500_shape | apply json_response_cors].
Qed.

(** A pre-flight request from an origin of the allow-list, and one from
    elsewhere. *)
Lemma preflight_examples :
  (exists r w',
     OPTIONS (request_with (Some (lit "http://localhost:5173")) "{}")
       (server None (answering 200 []))
     = (Ok r, w')
     /\ status r = 200%Z
     /\ headers_get (headers r) ACAO = Some (lit "http://localhost:5173")
     /\ headers_get (headers r) ACAC = Some (lit "true"))
  /\ (exists r w',
        OPTIONS (request_with (Some (lit "https://example.org")) "{}")
          (server None (answering 200 []))
        = (Ok r, w')
        /\ status r = 200%Z
        /\ headers_get (headers r) ACAO = Some (lit "http://localhost:3000")
        /\ headers_get (headers r) ACAC = None).
Proof.
  split; eexists; eexists; (split; [vm_compute; reflexivity|]);
    repeat split.
Qed.

(* ================================================================== *)
(** * Further properties *)
(* ================================================================== *)

(** X1.  What the response coercer does with every argument.  A falsy
    argument (undefined, null, the empty string, zero, false) gives null and
    no effect at all; a truthy argument that is not a string throws a
    TypeError, and nothing else does; a string never throws, gives what the
    search for a fence and then for braces finds, which is null or an
    object, and touches nothing but the console. *)
Theorem coerceJson_object_or_null (content : value) (w : World) :
  (truthy content = false -> coerceJson content w = (Ok VNull, w))
  /\ (truthy content = true -> (forall s, content <> VString s) ->
      coerceJson content w = (Throw TypeError, w))
  /\ (forall s, content = VString s ->
      exists w',
        coerceJson content w = (Ok (coerce_described false s), w')
        /\ console_only w w'
        /\ (coerce_described false s = VNull
            \/ exists members, coerce_described false s = VObject members))
  /\ (forall x w', coerceJson content w = (Throw x, w') ->
      x = TypeError /\ w' = w /\ truthy content = true
      /\ forall s, content <> VString s).
Proof.
  split; [|split; [|split]].
  - intros Et. unfold coerceJson. rewrite Et. reflexivity.
  - apply coerceJson_not_string.
  - intros s ->. destruct (coerceJson_string s w) as (w' & E & F).
    exists w'. split; [exact E|]. split; [exact F|].
    destruct (coerce_described_object false s) as [H|H]; [left; exact H|].
    right. destruct (coerce_described false s); try discriminate H.
    eexists; reflexivity.
  - intros x w' H.
    destruct (truthy content) eqn:Et.
    + assert (D : (exists s, content = VString s)
                  \/ (forall s, content <> VString s)).
      { destruct content; try (right; discriminate).
        left; eexists; reflexivity. }
      destruct D as [[s ->]|D].
      * destruct (coerceJson_string s w) as (w1 & E & _).
        rewrite E in H. discriminate H.
      * rewrite (coerceJson_not_string w Et D) in H.
        injection H as <- <-. repeat split. exact D.
    + unfold coerceJson in H. rewrite Et in H. discriminate H.
Qed.

(** X2.  Every run of the generation routine makes exactly one random draw,
    for the identifier of the entry it returns, and leaves the source of
    randomness as it was. *)
Theorem generation_draws_once (p : jsstring) (w : World) :
  exists e w',
    runClarityOnServer p w = (Ok e, w')
    /\ id e = uuid_of (random w (draws w))
    /\ draws w' = S (draws w)
    /\ random w' = random w.
Proof.
  destruct (run_entry p w) as (w' & E & D & R & _).
  eexists. exists w'. split; [exact E|].
  split; [|split; assumption].
  destruct (parsed_completion w p); reflexivity.
Qed.

(* ================================================================== *)
(** * What a run does to the world *)
(* ================================================================== *)

Ltac settle_effects :=
  eexists; eexists; eexists; split; [reflexivity|];
  cbn; repeat rewrite <- app_assoc; cbn;
  repeat split; first [reflexivity | assumption].

(** The effects of one run: with a credential the first thing recorded is
    the one exchange with the upstream service, and everything after it is
    console output; without one there is console output only. *)
Lemma run_effects (p : jsstring) (w : World) :
  exists e w' evs,
    runClarityOnServer p w = (Ok e, w')
    /\ trace w'
       = trace w
         ++ match credential w with
            | Some key => [EvFetch (gemini_request key p)]
            | None => []
            end
         ++ evs
    /\ forallb is_console evs = true
    /\ exchanges w'
       = match credential w with
         | Some _ => S (exchanges w)
         | None => exchanges w
         end
    /\ env_GEMINI_API_KEY w' = env_GEMINI_API_KEY w
    /\ env_NEXT_PUBLIC_VERCEL_API_URL w' = env_NEXT_PUBLIC_VERCEL_API_URL w
    /\ has_window w' = has_window w
    /\ network w' = network w.
Proof.
  unfold runClarityOnServer, credential.
  destruct (env_GEMINI_API_KEY w) as [[|c k]|] eqn:Ek; try settle_effects.
  unfold bind at 1. unfold Date_now_iso at 1. cbv beta iota.
  unfold try_catch, generate. unfold bind at 1. unfold fetch at 1.
  destruct (reply (network w (exchanges w) (gemini_request (c :: k) p)))
    as [r|] eqn:Er; [|settle_effects].
  unfold bind at 1.
  destruct (reply_ok r) eqn:Eok; cbn [negb].
  2:{ unfold reply_text. destruct (reply_body r); settle_effects. }
  unfold ret at 1. cbv beta iota.
  unfold bind at 1. unfold reply_json.
  destruct (reply_body r) as [t|]; [|settle_effects].
  destruct (JSON_parse t) as [json|]; [|settle_effects].
  unfold ret at 1. cbv beta iota zeta.
  unfold bind at 1.
  destruct (truthy (completion_text json)) eqn:Et; cbn [negb];
    [|settle_effects].
  unfold ret at 1. cbv beta iota.
  set (w1 := mkWorld _ _ _ _ _ _ _ _ _).
  unfold bind at 1.
  assert (Hns : (exists s, completion_text json = VString s)
                \/ (forall s, completion_text json <> VString s)).
  { destruct (completion_text json); try (right; discriminate).
    left; eexists; reflexivity. }
  destruct Hns as [[s Hs]|Hns].
  - rewrite Hs in *.
    destruct (coerceJson_string s w1) as [w2 [E F]].
    rewrite E. unfold bind at 1.
    destruct (parse_warning (coerce_described false s) w2) as [w3 [E3 F3]].
    rewrite E3. pose proof (console_only_trans F F3) as G.
    destruct G as (G1 & G2 & G3 & _ & _ & _ & G7 & G8 & evs & GT & GC).
    eexists. eexists. exists evs. split; [reflexivity|].
    cbn. rewrite GT, G1, G2, G3, G7, G8. subst w1. cbn.
    rewrite <- app_assoc. repeat split; first [reflexivity | assumption].
  - rewrite (coerceJson_not_string _ Et Hns). settle_effects.
Qed.

Lemma fetches_app (a b : list event) : fetches (a ++ b) = fetches a ++ fetches b.
Proof. apply filter_app. Qed.

Lemma fetches_console (evs : list event) :
  forallb is_console evs = true -> fetches evs = [].
Proof.
  induction evs as [|e evs IH]; cbn; [reflexivity|].
  destruct (is_console e); cbn; [exact IH | discriminate].
Qed.

(** X3.  A run of the generation routine makes no upstream call when no
    credential is configured, and exactly one when there is one: the
    request built from the credential and the prompt.  Whatever else it
    writes is console output, and it leaves the environment variables and
    the network as they were. *)
Theorem generation_exchanges (p : jsstring) (w : World) :
  exists e w',
    runClarityOnServer p w = (Ok e, w')
    /\ fetches (trace w')
       = fetches (trace w)
         ++ match credential w with
            | Some key => [EvFetch (gemini_request key p)]
            | None => []
            end
    /\ exchanges w'
       = match credential w with
         | Some _ => S (exchanges w)
         | None => exchanges w
         end
    /\ env_GEMINI_API_KEY w' = env_GEMINI_API_KEY w
    /\ env_NEXT_PUBLIC_VERCEL_API_URL w' = env_NEXT_PUBLIC_VERCEL_API_URL w
    /\ network w' = network w.
Proof.
  destruct (run_effects p w)
    as (e & w' & evs & E & T & C & X & K & U & _ & N).
  exists e, w'. split; [exact E|].
  split.
  { rewrite T. repeat rewrite fetches_app. rewrite (fetches_console _ C).
    rewrite app_nil_r. destruct (credential w); reflexivity. }
  auto.
Qed.

(* ================================================================== *)
(** * setCorsHeaders on any response *)
(* ================================================================== *)

Lemma header_put_found (h : list (jsstring * jsstring)) (n v : jsstring) :
  header_find h n = Some v -> header_put h n v = h.
Proof.
  induction h as [|[n' v'] h IH]; cbn [header_find header_put]; [discriminate|].
  destruct (jsstring_eqb n' n) eqn:E.
  - intros H. inversion H; subst. apply jsstring_eqb_eq in E. subst. reflexivity.
  - intros H. rewrite (IH H). reflexivity.
Qed.

Lemma header_find_put_frame (h : list (jsstring * jsstring))
  (n n' v : jsstring) :
  n <> n' -> header_find (header_put h n v) n' = header_find h n'.
Proof. intros H. apply header_find_put_other, jsstring_eqb_neq, H. Qed.

(** X4.  [setCorsHeaders] touches only the five cross-origin headers: the
    status, the body and every other header of the response stay as they
    were; and applying it a second time for the same origin changes
    nothing. *)
Theorem setCorsHeaders_frame (r : NextResponse) (origin : option jsstring) :
  status (setCorsHeaders r origin) = status r
  /\ body (setCorsHeaders r origin) = body r
  /\ (forall name,
        ~ In (to_lower name) cors_header_names ->
        headers_get (headers (setCorsHeaders r origin)) name
        = headers_get (headers r) name)
  /\ setCorsHeaders (setCorsHeaders r origin) origin = setCorsHeaders r origin.
Proof.
  destruct (setCorsHeaders_status r origin) as [S B].
  split; [exact S|]. split; [exact B|]. split.
  - intros name Hn. unfold cors_header_names in Hn. cbn [map In] in Hn.
    assert (H1 : to_lower ACAO <> to_lower name) by tauto.
    assert (H2 : to_lower ACAC <> to_lower name) by tauto.
    assert (H3 : to_lower ACAM <> to_lower name) by tauto.
    assert (H4 : to_lower ACAH <> to_lower name) by tauto.
    assert (H5 : to_lower ACMA <> to_lower name) by tauto.
    unfold setCorsHeaders, headers_get.
    destruct origin as [o|]; [destruct (origin_allowed (Some o))|];
      cbn [headers set_header]; unfold headers_set;
      repeat (rewrite header_find_put_frame by assumption); reflexivity.
  - unfold setCorsHeaders.
    destruct origin as [o|]; [destruct (origin_allowed (Some o))|];
      unfold set_header; cbn [status headers body]; f_equal;
      unfold headers_set;
      repeat (rewrite header_put_found;
              [|repeat (rewrite header_find_put_other by reflexivity);
                apply header_find_put_same]);
      reflexivity.
Qed.

(** X5.  Whatever the response and whatever the origin of the request,
    after [setCorsHeaders] the Access-Control-Allow-Origin header names an
    origin of the allow-list: an origin outside the list is never echoed,
    and the wildcard the code keeps in reserve is never sent. *)
Theorem allow_origin_is_listed (r : NextResponse) (origin : option jsstring) :
  exists o,
    headers_get (headers (setCorsHeaders r origin)) ACAO = Some o
    /\ In o allowedOrigins
    /\ o <> lit "*".
Proof.
  assert (W : forall o, In o allowedOrigins -> o <> lit "*").
  { intros o H. cbn [allowedOrigins In] in H.
    destruct H as [H|[H|[H|[H|[]]]]]; subst o; discriminate. }
  assert (D : In default_origin allowedOrigins) by (left; reflexivity).
  unfold setCorsHeaders.
  destruct origin as [o|]; [destruct (origin_allowed (Some o)) eqn:Ea|].
  - exists o. apply origin_allowed_In in Ea.
    split; [cbn [headers set_header]; header_lookup | auto].
  - exists default_origin.
    split; [cbn [headers set_header]; header_lookup | auto].
  - exists default_origin.
    split; [cbn [headers set_header]; header_lookup | auto].
Qed.

(* ================================================================== *)
(** * What the coercer finds in prose *)
(* ================================================================== *)

Lemma strip_backticks_head (c : N) (s : jsstring) :
  c <> ch "`" -> strip_prefix backticks (c :: s) = None.
Proof.
  intros H. cbn [backticks lit list_ascii_of_string map strip_prefix].
  destruct (N.eqb_spec (ch "`") c) as [E|]; [congruence | reflexivity].
Qed.

Lemma fence_here_head (tag : bool) (c : N) (s : jsstring) :
  c <> ch "`" -> fence_here tag (c :: s) = None.
Proof.
  intros H. unfold fence_here. rewrite strip_backticks_head by exact H.
  reflexivity.
Qed.

(** No fence opens in text without a backtick. *)
Lemma find_fence_skip (tag : bool) (pre s : jsstring) :
  ~ In (ch "`") pre -> find_fence tag (pre ++ s) = find_fence tag s.
Proof.
  induction pre as [|x pre IH]; intros H; [reflexivity|].
  cbn [app find_fence]. rewrite fence_here_head.
  - apply IH. intros Hin. apply H. right. exact Hin.
  - intros E. apply H. left. exact E.
Qed.

Lemma find_fence_none (tag : bool) (s : jsstring) :
  ~ In (ch "`") s -> find_fence tag s = None.
Proof.
  intros H. rewrite <- (app_nil_r s). rewrite find_fence_skip by exact H.
  reflexivity.
Qed.

Lemma drop_spaces_app (l rest : jsstring) :
  forallb is_js_space l = true ->
  drop_while is_js_space (l ++ rest) = drop_while is_js_space rest.
Proof.
  induction l as [|x l IH]; intros H; [reflexivity|].
  cbn [forallb] in H. apply andb_true_iff in H. destruct H as [Hx Hl].
  cbn [app drop_while]. rewrite Hx. apply IH, Hl.
Qed.

(** The fence does not close in the middle of a body without backticks. *)
Lemma closes_fence_inside (t rest : jsstring) :
  ~ In (ch "`") t -> closes_fence (t ++ ch "}" :: rest) = false.
Proof.
  unfold closes_fence. induction t as [|x t IH]; intros H.
  - reflexivity.
  - cbn [app drop_while]. destruct (is_js_space x).
    + apply IH. intros Hin. apply H. right. exact Hin.
    + rewrite strip_backticks_head; [reflexivity|].
      intros E. apply H. left. exact E.
Qed.

Lemma closes_fence_here (ws post : jsstring) :
  forallb is_js_space ws = true ->
  closes_fence (ws ++ backticks ++ post) = true.
Proof.
  intros H. unfold closes_fence. rewrite drop_spaces_app by exact H.
  reflexivity.
Qed.

Lemma fence_body_found (t ws post : jsstring) :
  ~ In (ch "`") t -> forallb is_js_space ws = true ->
  fence_body (t ++ ch "}" :: ws ++ backticks ++ post) = Some (t ++ [ch "}"]).
Proof.
  intros Ht Hws. induction t as [|x t IH].
  - cbn [app fence_body]. rewrite closes_fence_here by exact Hws. reflexivity.
  - cbn [app fence_body].
    rewrite closes_fence_inside
      by (intros Hin; apply Ht; right; exact Hin).
    rewrite andb_false_r. rewrite IH; [reflexivity|].
    intros Hin. apply Ht. right. exact Hin.
Qed.

Lemma fence_here_found (tag ws1 t ws2 post : jsstring) :
  tag = [] \/ tag = lit "json" ->
  forallb is_js_space ws1 = true -> forallb is_js_space ws2 = true ->
  ~ In (ch "`") t ->
  fence_here false
    (backticks ++ tag ++ ws1 ++ ch "{" :: t ++ ch "}" :: ws2 ++ backticks ++ post)
  = Some (ch "{" :: t ++ [ch "}"]).
Proof.
  intros Htag H1 H2 Ht. unfold fence_here.
  assert (E : strip_prefix backticks
                (backticks ++ tag ++ ws1 ++ ch "{" :: t ++ ch "}" :: ws2
                 ++ backticks ++ post)
              = Some (tag ++ ws1 ++ ch "{" :: t ++ ch "}" :: ws2
                      ++ backticks ++ post))
    by (apply strip_prefix_app; reflexivity).
  rewrite E. clear E.
  assert (T : skip_tag false
                (tag ++ ws1 ++ ch "{" :: t ++ ch "}" :: ws2 ++ backticks ++ post)
              = Some (ws1 ++ ch "{" :: t ++ ch "}" :: ws2 ++ backticks ++ post)).
  { destruct Htag as [-> | ->].
    - unfold skip_tag. cbn [app].
      destruct ws1 as [|x ws1]; [reflexivity|].
      cbn [forallb] in H1. apply andb_true_iff in H1. destruct H1 as [Hx _].
      cbn [app lit list_ascii_of_string map strip_prefix].
      destruct (N.eqb_spec (ch "j") x) as [<-|]; [discriminate Hx|reflexivity].
    - unfold skip_tag.
      assert (E : strip_prefix (lit "json")
                    (lit "json" ++ ws1 ++ ch "{" :: t ++ ch "}" :: ws2
                     ++ backticks ++ post)
                  = Some (ws1 ++ ch "{" :: t ++ ch "}" :: ws2
                          ++ backticks ++ post))
        by (apply strip_prefix_app; reflexivity).
      rewrite E. reflexivity. }
  rewrite T. rewrite drop_spaces_app by exact H1.
  cbn [drop_while]. change (is_js_space (ch "{")) with false. cbv iota.
  unfold body_here. rewrite N.eqb_refl.
  rewrite fence_body_found by assumption. reflexivity.
Qed.

(** X6.  A JSON object inside a code fence is what the coercer returns,
    whatever prose stands around it: for a fence tagged json or not tagged,
    white space on either side of the body, no backtick in the prose before
    the fence nor in the body, and a body that parses, the result is the
    parsed body.  Braces in the prose before or after do not matter. *)
Theorem fenced_object_is_extracted
  (pre tag ws1 t ws2 post : jsstring) (v : value) (w : World) :
  ~ In (ch "`") pre ->
  tag = [] \/ tag = lit "json" ->
  forallb is_js_space ws1 = true ->
  forallb is_js_space ws2 = true ->
  ~ In (ch "`") t ->
  JSON_parse (ch "{" :: t ++ [ch "}"]) = Some v ->
  exists w',
    coerceJson
      (VString
         (pre ++ backticks ++ tag ++ ws1 ++ ch "{" :: t ++ ch "}" :: ws2
          ++ backticks ++ post)) w
    = (Ok v, w')
    /\ console_only w w'.
Proof.
  intros Hpre Htag H1 H2 Ht Hv.
  destruct (coerceJson_string
              (pre ++ backticks ++ tag ++ ws1 ++ ch "{" :: t ++ ch "}" :: ws2
               ++ backticks ++ post) w) as (w' & E & F).
  exists w'. split; [|exact F]. rewrite E. do 2 f_equal.
  unfold coerce_described. rewrite find_fence_skip by exact Hpre.
  destruct tag as [|c tag'].
  - cbn [app]. cbn [find_fence backticks lit list_ascii_of_string map app].
    pose proof (@fence_here_found [] ws1 t ws2 post (or_introl eq_refl)
                  H1 H2 Ht) as Hf.
    cbn [app backticks lit list_ascii_of_string map] in Hf.
    rewrite Hf, Hv. reflexivity.
  - destruct Htag as [Hx|Hx]; [discriminate Hx|]. rewrite Hx.
    pose proof (@fence_here_found (lit "json") ws1 t ws2 post
                  (or_intror eq_refl) H1 H2 Ht) as Hf.
    cbn [app backticks lit list_ascii_of_string map] in Hf.
    cbn [find_fence backticks lit list_ascii_of_string map app].
    rewrite Hf, Hv. reflexivity.
Qed.

(** The object of [tagged_fence], between prose that has braces. *)
Lemma fenced_object_is_extracted_witness :
  exists w',
    coerceJson (VString tagged_fence) (server None (answering 200 []))
    = (Ok (VObject [(prop_name P_summary, VString (lit "ok"))]), w')
    /\ console_only (server None (answering 200 [])) w'.
Proof.
  apply (@fenced_object_is_extracted
           (lit "Sure {gladly}!" ++ LF) (lit "json") LF
           (qlit "'summary':'ok'") LF (LF ++ lit "Take care }")
           (VObject [(prop_name P_summary, VString (lit "ok"))])
           (server None (answering 200 []))).
  - cbn. intros H. repeat (destruct H as [H|H]; [discriminate H|]). exact H.
  - right. reflexivity.
  - reflexivity.
  - reflexivity.
  - cbn. intros H. repeat (destruct H as [H|H]; [discriminate H|]). exact H.
  - vm_compute. reflexivity.
Defined.

Lemma from_first_skip (c : N) (pre s : jsstring) :
  ~ In c pre -> from_first c (pre ++ c :: s) = Some (c :: s).
Proof.
  induction pre as [|x pre IH]; intros H; cbn [app from_first].
  - rewrite N.eqb_refl. reflexivity.
  - destruct (N.eqb_spec x c) as [E|].
    + exfalso. apply H. left. exact E.
    + apply IH. intros Hin. apply H. right. exact Hin.
Qed.

Lemma upto_last_found (c : N) (t post : jsstring) :
  ~ In c post -> upto_last c (t ++ c :: post) = Some (t ++ [c]).
Proof.
  intros H. induction t as [|x t IH]; cbn [app upto_last].
  - apply upto_last_none in H. rewrite H, N.eqb_refl. reflexivity.
  - rewrite IH. reflexivity.
Qed.

(** X7.  A JSON object in prose that has no fence is found by its braces:
    when the text before it has no opening brace, the text after it no
    closing brace, and there is no backtick anywhere, the coercer returns
    what the text from the first opening brace to the last closing brace
    parses to, and null when that does not parse. *)
Theorem braced_object_is_extracted (pre t post : jsstring) (w : World) :
  ~ In (ch "{") pre ->
  ~ In (ch "}") post ->
  ~ In (ch "`") (pre ++ ch "{" :: t ++ ch "}" :: post) ->
  exists w',
    coerceJson (VString (pre ++ ch "{" :: t ++ ch "}" :: post)) w
    = (Ok match JSON_parse (ch "{" :: t ++ [ch "}"]) with
          | Some v => v
          | None => VNull
          end, w')
    /\ console_only w w'.
Proof.
  intros Hpre Hpost Hticks.
  destruct (coerceJson_string (pre ++ ch "{" :: t ++ ch "}" :: post) w)
    as (w' & E & F).
  exists w'. split; [|exact F]. rewrite E. do 2 f_equal.
  unfold coerce_described. rewrite find_fence_none by exact Hticks.
  unfold coerce_braces, brace_span.
  rewrite from_first_skip by exact Hpre.
  rewrite upto_last_found by exact Hpost. reflexivity.
Qed.

(** An object between two sentences. *)
Lemma braced_object_is_extracted_witness :
  exists w',
    coerceJson
      (VString (lit "Here you go: " ++ qlit "{'summary':'ok'}" ++ lit " Bye."))
      (server None (answering 200 []))
    = (Ok (VObject [(prop_name P_summary, VString (lit "ok"))]), w')
    /\ console_only (server None (answering 200 [])) w'.
Proof.
  apply (@braced_object_is_extracted (lit "Here you go: ")
           (qlit "'summary':'ok'") (lit " Bye.")
           (server None (answering 200 []))).
  - cbn. intros H. repeat (destruct H as [H|H]; [discriminate H|]). exact H.
  - cbn. intros H. repeat (destruct H as [H|H]; [discriminate H|]). exact H.
  - cbn. intros H. repeat (destruct H as [H|H]; [discriminate H|]). exact H.
Defined.

(* ================================================================== *)
(** * The message sent upstream *)
(* ================================================================== *)

Lemma drop_spaces_stop (l rest : jsstring) (c : N) :
  is_js_space c = false ->
  drop_while is_js_space (l ++ c :: rest)
  = drop_while is_js_space l ++ c :: rest.
Proof.
  intros Hc. induction l as [|x l IH]; cbn [app drop_while].
  - rewrite Hc. reflexivity.
  - destruct (is_js_space x); [exact IH | reflexivity].
Qed.

Lemma instructions_preamble : instructions = LF ++ preamble ++ [32%N].
Proof. reflexivity. Qed.

Lemma preamble_ends : exists body, preamble = ch "Y" :: body ++ [ch ":"].
Proof.
  exists (removelast (tl preamble)). reflexivity.
Qed.

(** The trimmed template: the preamble, then the prompt without the white
    space at its end. *)
Lemma trim_template (p : jsstring) :
  trim (instructions ++ p ++ LF) = preamble ++ trim_end (32%N :: p).
Proof.
  rewrite instructions_preamble.
  destruct preamble_ends as [body E]. rewrite E.
  unfold trim, trim_end, LF.
  cbn [app drop_while]. change (is_js_space 10) with true.
  change (is_js_space (ch "Y")) with false. cbv iota.
  assert (L : ch "Y" :: ((body ++ [ch ":"]) ++ [32%N]) ++ p ++ [10%N]
              = (ch "Y" :: body) ++ ch ":" :: ((32%N :: p) ++ [10%N])).
  { cbn [app]. f_equal. repeat rewrite <- app_assoc. reflexivity. }
  rewrite L. clear L.
  rewrite rev_app_distr. cbn [rev].
  rewrite rev_app_distr. cbn [rev app drop_while].
  change (is_js_space 10) with true. cbv iota.
  repeat rewrite <- app_assoc. cbn [app].
  change (rev p ++ 32%N :: ch ":" :: rev body ++ [ch "Y"])
    with (rev p ++ [32%N] ++ ch ":" :: rev body ++ [ch "Y"]).
  rewrite app_assoc.
  rewrite (@drop_spaces_stop (rev p ++ [32%N]) (rev body ++ [ch "Y"]) (ch ":"))
    by reflexivity.
  rewrite rev_app_distr. cbn [rev]. rewrite rev_app_distr, rev_involutive.
  cbn [rev app]. repeat rewrite <- app_assoc. reflexivity.
Qed.

Lemma forallb_rev_true (f : N -> bool) (l : jsstring) :
  forallb f l = true -> forallb f (rev l) = true.
Proof.
  repeat rewrite forallb_forall. intros H x Hx. apply H, in_rev, Hx.
Qed.

(** X8.  The one message of the upstream request is the fixed instructions,
    whole and first, followed by a space and the prompt as it is, with the
    white space at the end removed: no prompt displaces or alters the
    instructions, and a prompt of white space only leaves the instructions
    alone. *)
Theorem upstream_message (key p : jsstring) :
  message_text (gemini_request key p)
  = Some (preamble ++ trim_end (32%N :: p))
  /\ (forallb is_js_space p = true ->
      message_text (gemini_request key p) = Some preamble).
Proof.
  assert (E : message_text (gemini_request key p)
              = Some (preamble ++ trim_end (32%N :: p))).
  { unfold gemini_request, message_text, gemini_body. cbn [fr_body].
    rewrite trim_template. reflexivity. }
  split; [exact E|].
  intros H. rewrite E. do 2 f_equal.
  unfold trim_end. cbn [rev].
  assert (R : forallb is_js_space (rev p ++ [32%N]) = true).
  { rewrite forallb_app, (forallb_rev_true _ _ H). reflexivity. }
  rewrite <- (app_nil_r (rev p ++ [32%N])).
  rewrite drop_spaces_app by exact R. apply app_nil_r.
Qed.

(* ================================================================== *)
(** * From the client helpers to the endpoint: the prompt *)
(* ================================================================== *)

Lemma hex_val_digit (n : N) : (n < 16)%N -> hex_val (hex_digit n) = Some n.
Proof.
  intros H. unfold hex_digit, hex_val, is_digit.
  destruct (N.ltb_spec n 10) as [L|L].
  - replace ((48 <=? 48 + n) && (48 + n <=? 57))%N with true
      by (symmetry; apply andb_true_iff; split; apply N.leb_le; lia).
    f_equal. lia.
  - replace ((48 <=? 87 + n) && (87 + n <=? 57))%N with false
      by (symmetry; apply andb_false_iff; right; apply N.leb_gt; lia).
    replace ((97 <=? 87 + n) && (87 + n <=? 102))%N with true
      by (symmetry; apply andb_true_iff; split; apply N.leb_le; lia).
    f_equal. lia.
Qed.

Lemma hex4_digits_value (c : N) :
  (c < 65536)%N ->
  hex4 (hex_digit (c / 4096 mod 16)) (hex_digit (c / 256 mod 16))
    (hex_digit (c / 16 mod 16)) (hex_digit (c mod 16)) = Some c.
Proof.
  intros H. unfold hex4.
  repeat rewrite hex_val_digit by (apply N.mod_lt; discriminate).
  f_equal.
  pose proof (N.div_mod c 16). pose proof (N.div_mod (c / 16) 16).
  pose proof (N.div_mod (c / 256) 16).
  assert (D1 : (c / 16 / 16 = c / 256)%N)
    by (rewrite N.Div0.div_div; reflexivity).
  assert (D2 : (c / 256 / 16 = c / 4096)%N)
    by (rewrite N.Div0.div_div; reflexivity).
  assert (S4 : (c / 4096 < 16)%N)
    by (apply N.Div0.div_lt_upper_bound; exact H).
  rewrite (N.mod_small (c / 4096) 16) by exact S4.
  lia.
Qed.

Lemma parse_string_unicode (c : N) (s : jsstring) :
  (c < 65536)%N ->
  parse_string (unicode_escape c ++ s)
  = match parse_string s with
    | Some (str, rest) => Some (c :: str, rest)
    | None => None
    end.
Proof.
  intros H. unfold unicode_escape, hex4_digits. cbn [app parse_string].
  change (92 =? 34)%N with false. change (92 =? 92)%N with true.
  change (117 =? 117)%N with true. cbv iota.
  rewrite hex4_digits_value by exact H. reflexivity.
Qed.

Lemma parse_string_short (c e : N) (s : jsstring) :
  short_escape c = Some e ->
  parse_string (92%N :: e :: s)
  = match parse_string s with
    | Some (str, rest) => Some (c :: str, rest)
    | None => None
    end.
Proof.
  unfold short_escape.
  destruct (N.eqb_spec c 8) as [->|]; [intros H; inversion H; reflexivity|].
  destruct (N.eqb_spec c 9) as [->|]; [intros H; inversion H; reflexivity|].
  destruct (N.eqb_spec c 10) as [->|]; [intros H; inversion H; reflexivity|].
  destruct (N.eqb_spec c 12) as [->|]; [intros H; inversion H; reflexivity|].
  destruct (N.eqb_spec c 13) as [->|]; [intros H; inversion H; reflexivity|].
  destruct (N.eqb_spec c 34) as [->|]; [intros H; inversion H; reflexivity|].
  destruct (N.eqb_spec c 92) as [->|]; [intros H; inversion H; reflexivity|].
  discriminate.
Qed.

Lemma parse_string_plain (c : N) (s : jsstring) :
  short_escape c = None -> (c <? 32)%N = false ->
  parse_string (c :: s)
  = match parse_string s with
    | Some (str, rest) => Some (c :: str, rest)
    | None => None
    end.
Proof.
  intros Hs Hc. cbn [parse_string]. rewrite Hc.
  unfold short_escape in Hs.
  destruct (c =? 8)%N; [discriminate|]. destruct (c =? 9)%N; [discriminate|].
  destruct (c =? 10)%N; [discriminate|]. destruct (c =? 12)%N; [discriminate|].
  destruct (c =? 13)%N; [discriminate|].
  destruct (c =? 34)%N; [discriminate|]. destruct (c =? 92)%N; [discriminate|].
  reflexivity.
Qed.

Lemma short_escape_surrogate (d : N) :
  is_low_surrogate d = true ->
  short_escape d = None /\ (d <? 32)%N = false.
Proof.
  unfold is_low_surrogate. intros H. apply andb_true_iff in H.
  destruct H as [H _]. apply N.leb_le in H.
  split; [|apply N.ltb_ge; lia].
  unfold short_escape.
  repeat match goal with
         | |- context [(d =? ?k)%N] =>
             destruct (N.eqb_spec d k); [lia|]
         end.
  reflexivity.
Qed.

(** What [JSON.stringify] writes for a string reads back as that string. *)
Lemma parse_quote_units (n : nat) :
  forall s rest,
    List.length s <= n -> well_formed s ->
    parse_string (quote_units s ++ 34%N :: rest) = Some (s, rest).
Proof.
  induction n as [|n IH]; intros s rest Hn Hw.
  { destruct s; [reflexivity | cbn in Hn; lia]. }
  destruct s as [|c r]; [reflexivity|].
  inversion Hw as [|? ? Hc Hr]; subst. cbn [List.length] in Hn.
  assert (IHr : parse_string (quote_units r ++ 34%N :: rest) = Some (r, rest))
    by (apply IH; [lia | exact Hr]).
  cbn [quote_units].
  destruct (short_escape c) as [e|] eqn:Es.
  { cbn [app]. rewrite (@parse_string_short c e _ Es), IHr. reflexivity. }
  destruct (c <? 32)%N eqn:E32.
  { rewrite <- app_assoc, parse_string_unicode by exact Hc.
    rewrite IHr. reflexivity. }
  destruct (is_high_surrogate c).
  { destruct r as [|d r'].
    - rewrite parse_string_unicode by exact Hc. reflexivity.
    - destruct (is_low_surrogate d) eqn:Ed.
      + cbn [app]. rewrite (@parse_string_plain c _ Es E32).
        destruct (@short_escape_surrogate d Ed) as [Sd Ld].
        rewrite (@parse_string_plain d _ Sd Ld).
        inversion Hr as [|? ? Hd Hr']; subst. cbn [List.length] in Hn.
        rewrite (IH r' rest) by first [lia | exact Hr']. reflexivity.
      + rewrite <- app_assoc, parse_string_unicode by exact Hc.
        rewrite IHr. reflexivity. }
  destruct (is_low_surrogate c).
  { rewrite <- app_assoc, parse_string_unicode by exact Hc.
    rewrite IHr. reflexivity. }
  cbn [app]. rewrite (@parse_string_plain c _ Es E32), IHr. reflexivity.
Qed.

Lemma stringify_prompt_body_text (s : jsstring) :
  stringify_prompt_body s
  = ch "{" :: JSON_quote (prop_name P_prompt)
    ++ ch ":" :: 34%N :: quote_units s ++ 34%N :: [ch "}"].
Proof.
  unfold stringify_prompt_body, JSON_quote. cbn [lit list_ascii_of_string map app].
  repeat rewrite <- app_assoc. reflexivity.
Qed.

(** The body the client helpers send parses to an object whose only
    property is the prompt. *)
Lemma prompt_body_parses (s : jsstring) :
  well_formed s ->
  JSON_parse (stringify_prompt_body s)
  = Some (VObject [(prop_name P_prompt, VString s)]).
Proof.
  intros Hw. unfold JSON_parse.
  assert (F : exists f,
             2 * List.length (stringify_prompt_body s) + 1 = S (S (S f))).
  { rewrite stringify_prompt_body_text. cbn [List.length].
    eexists. rewrite Nat.add_1_r. cbn. reflexivity. }
  destruct F as [f ->].
  rewrite stringify_prompt_body_text.
  rewrite parse_value_S.
  change (skip_ws (ch "{" :: ?x)) with (ch "{" :: x). cbv iota beta.
  change (ch "{" =? 123)%N with true. cbv iota.
  change (JSON_quote (prop_name P_prompt))
    with (34%N :: lit "prompt" ++ [34%N]).
  cbn [app lit list_ascii_of_string map].
  change (skip_ws (34%N :: ?x)) with (34%N :: x). cbv iota beta.
  change (34 =? 125)%N with false. cbv iota.
  rewrite parse_members_S.
  change (skip_ws (34%N :: ?x)) with (34%N :: x). cbv iota beta.
  change (34 =? 34)%N with true. cbv iota.
  match goal with
  | |- context [parse_string (ch "p" :: ?x)] =>
      change (parse_string (ch "p" :: x))
        with (Some (lit "prompt", ch ":" :: 34%N
                                  :: quote_units s ++ 34%N :: [ch "}"]))
  end.
  cbv iota beta.
  change (skip_ws (ch ":" :: ?x)) with (ch ":" :: x). cbv iota beta.
  change (ch ":" =? 58)%N with true. cbv iota.
  rewrite parse_value_S.
  change (skip_ws (34%N :: ?x)) with (34%N :: x). cbv iota beta.
  change (34 =? 123)%N with false. change (34 =? 91)%N with false. cbv iota.
  unfold parse_scalar. change (34 =? 34)%N with true. cbv iota.
  rewrite (@parse_quote_units (List.length s) s [ch "}"] (le_n _) Hw).
  reflexivity.
Qed.

(** X9.  The prompt survives the trip from the client helpers to the
    generation routine.  For every string of code units (quotes,
    backslashes, line breaks, control characters and surrogates, paired or
    not, included), the body [JSON.stringify({ prompt })] that
    getClarityInsights and generateReport send parses, at the endpoint, to
    an object whose prompt is that very string; so POST answers 400 when the
    prompt is empty, and otherwise runs the generation routine on exactly
    that string and answers 200 with an entry whose prompt field is it. *)
Theorem prompt_round_trip (s : jsstring) (origin : option jsstring)
  (w : World) :
  well_formed s ->
  JSON_parse (stringify_prompt_body s)
  = Some (fr_body (endpoint_request (api_url w) s))
  /\ (s = [] ->
      exists r w',
        POST (mkRequest origin (stringify_prompt_body s)) w = (Ok r, w')
        /\ status r = 400%Z)
  /\ (s <> [] ->
      exists e w1 r w',
        console_only w w1
        /\ runClarityOnServer s w1 = (Ok e, w')
        /\ prompt e = s
        /\ POST (mkRequest origin (stringify_prompt_body s)) w = (Ok r, w')
        /\ status r = 200%Z
        /\ body r = Some (VObject (entry_object e))).
Proof.
  intros Hw. pose proof (prompt_body_parses Hw) as P.
  split; [exact P|].
  pose proof (POST_cases (mkRequest origin (stringify_prompt_body s)) w) as H.
  cbn [req_body req_origin] in H. rewrite P in H.
  change (get (VObject [(prop_name P_prompt, VString s)]) P_prompt)
    with (VString s) in H.
  split.
  - intros ->. cbn [truthy] in H. destruct H as (w' & E & _).
    exists (answer_400 origin), w'. split; [exact E|].
    apply answer_400_shape.
  - intros Hne. destruct s as [|c s]; [contradiction|]. cbn [truthy] in H.
    destruct H as (e & w1 & w' & F & E & Pe & EP).
    exists e, w1, (answer_200 e origin), w'.
    destruct (answer_200_shape e origin) as [S B]. auto 10.
Qed.

(** A prompt with a quote, a backslash and a line break in it. *)
Lemma prompt_round_trip_witness :
  exists e w1 r w',
    console_only (server None (answering 200 [])) w1
    /\ runClarityOnServer [73; 34; 92; 10; 33]%N w1 = (Ok e, w')
    /\ prompt e = [73; 34; 92; 10; 33]%N
    /\ POST (mkRequest None (stringify_prompt_body [73; 34; 92; 10; 33]%N))
         (server None (answering 200 []))
       = (Ok r, w')
    /\ status r = 200%Z
    /\ body r = Some (VObject (entry_object e)).
Proof.
  destruct (@prompt_round_trip [73; 34; 92; 10; 33]%N None
              (server None (answering 200 []))) as (_ & _ & H).
  - repeat constructor.
  - apply H. discriminate.
Defined.

(* ================================================================== *)
(** * The client helpers in a browser *)
(* ================================================================== *)

(** X10.  In a browser, getClarityInsights hands back whatever JSON value
    the body of a success answer of the endpoint holds, as it is and without
    looking at it (null and values that are no entry included); it makes
    that one exchange, writes nothing to the console and draws no random
    number. *)
Theorem insights_returns_body (p : jsstring) (w : World) (rep : http_reply)
  (t : jsstring) (data : value) :
  has_window w = true ->
  reply (network w (exchanges w) (endpoint_request (api_url w) p)) = Some rep ->
  reply_ok rep = true ->
  reply_body rep = Some t ->
  JSON_parse t = Some data ->
  exists w',
    getClarityInsights p w = (Insights data, w')
    /\ trace w' = trace w ++ [EvFetch (endpoint_request (api_url w) p)]
    /\ exchanges w' = S (exchanges w)
    /\ draws w' = draws w.
Proof.
  intros Hw Hr Hok Hb Hp.
  unfold getClarityInsights, fetch, reply_json. rewrite Hw, Hr, Hok, Hb, Hp.
  cbn [negb]. eexists. split; [reflexivity|]. repeat split.
Qed.

(** A success answer whose body is the JSON text null. *)
Lemma insights_returns_body_witness :
  exists w',
    getClarityInsights (lit "hi") (browser (answering 200 (lit "null")))
    = (Insights VNull, w')
    /\ trace w'
       = [EvFetch (endpoint_request (lit "/api/diagnosis") (lit "hi"))]
    /\ exchanges w' = 1
    /\ draws w' = 0.
Proof.
  apply (@insights_returns_body (lit "hi")
           (browser (answering 200 (lit "null")))
           (mkReply 200 (Some (lit "null"))) (lit "null") VNull);
    reflexivity.
Defined.

(** X11.  How getClarityInsights fails in a browser.  A failure of the
    transport is logged and thrown again; an answer with a non-success
    status is logged and thrown as an error that carries the status and the
    text of the body, or "Unknown error" when the body cannot be read; a
    success answer whose body is not JSON throws the SyntaxError without
    anything being logged, since the promise of [res.json()] is returned
    without being awaited.  In each case exactly one exchange was made. *)
Theorem insights_failures (p : jsstring) (w : World) :
  has_window w = true ->
  (reply (network w (exchanges w) (endpoint_request (api_url w) p)) = None ->
   exists w',
     getClarityInsights p w = (InsightsError (Rethrown FetchFailed), w')
     /\ trace w'
        = trace w ++ [EvFetch (endpoint_request (api_url w) p);
                      fetch_error_logged])
  /\ (forall rep,
        reply (network w (exchanges w) (endpoint_request (api_url w) p))
        = Some rep ->
        reply_ok rep = false ->
        exists w',
          getClarityInsights p w
          = (InsightsError
               (ApiError (reply_status rep)
                  match reply_body rep with
                  | Some t => t
                  | None => lit "Unknown error"
                  end), w')
          /\ trace w'
             = trace w ++ [EvFetch (endpoint_request (api_url w) p);
                           fetch_error_logged])
  /\ (forall rep t,
        reply (network w (exchanges w) (endpoint_request (api_url w) p))
        = Some rep ->
        reply_ok rep = true -> reply_body rep = Some t ->
        JSON_parse t = None ->
        exists w',
          getClarityInsights p w = (InsightsError (Rethrown SyntaxError), w')
          /\ trace w' = trace w ++ [EvFetch (endpoint_request (api_url w) p)]).
Proof.
  intros Hw. unfold getClarityInsights, fetch, reply_json. rewrite Hw.
  split; [|split].
  - intros ->. eexists. split; [reflexivity|].
    cbn. rewrite <- app_assoc. reflexivity.
  - intros rep -> Hok. rewrite Hok. cbn [negb].
    eexists. split; [reflexivity|]. cbn. rewrite <- app_assoc. reflexivity.
  - intros rep t -> Hok Hb Hp. rewrite Hok, Hb, Hp. cbn [negb].
    eexists. split; reflexivity.
Qed.

(** A browser in front of an endpoint that answers 503 with a body that
    cannot be read. *)
Lemma insights_failures_witness :
  exists w',
    getClarityInsights (lit "hi") (browser (unreadable 503))
    = (InsightsError (ApiError 503 (lit "Unknown error")), w')
    /\ trace w'
       = [EvFetch (endpoint_request (lit "/api/diagnosis") (lit "hi"));
          fetch_error_logged].
Proof.
  destruct (@insights_failures (lit "hi") (browser (unreadable 503))
              eq_refl) as (_ & H & _).
  apply (H (mkReply 503 None)); reflexivity.
Defined.

Lemma throw_pair_inj (A : Type) (x y : exn) (w w' : World) :
  (@Throw A x, w) = (Throw y, w') -> w = w'.
Proof. congruence. Qed.

Lemma ok_world_inj (A : Type) (a b : A) (w w' : World) :
  (Ok a, w) = (Ok b, w') -> w = w'.
Proof. congruence. Qed.

Lemma ok_pair_inj (A : Type) (a b : A) (w w' : World) :
  (Ok a, w) = (Ok b, w') -> a = b.
Proof. congruence. Qed.

(** X12.  Whatever generateReport returns, on the server or in a browser,
    carries a report that is present (never null or undefined), even when
    the object it was built from had a report of its own; and on the server
    it always returns. *)
Theorem report_is_always_present (p : jsstring) (w : World) :
  (forall r w', generateReport p w = (Ok r, w') -> present (get r P_report))
  /\ (has_window w = false -> exists r w', generateReport p w = (Ok r, w')).
Proof.
  assert (C : forall m a,
             present (get (VObject (obj_set m (prop_name P_report)
                                      (coalesce a canned_report))) P_report)).
  { intros m a. cbn [get]. rewrite obj_get_set_same.
    apply coalesce_present. reflexivity. }
  split.
  - intros r w'. unfold generateReport.
    destruct (has_window w).
    + unfold report_from_endpoint, try_catch.
      unfold bind at 1. unfold fetch.
      destruct (reply (network w (exchanges w)
                         (endpoint_request (api_url w) p)))
        as [rep|]; [|discriminate].
      unfold bind at 1.
      destruct (reply_ok rep); cbn [negb].
      2:{ unfold bind, try_catch, reply_text.
          destruct (reply_body rep); discriminate. }
      unfold ret at 1. cbv beta iota. unfold bind at 1. unfold reply_json.
      destruct (reply_body rep) as [t|]; [|discriminate].
      destruct (JSON_parse t) as [data|]; [|discriminate].
      unfold ret at 1. cbv beta iota. unfold bind, member.
      destruct (nullish data); [discriminate|].
      unfold ret. intros H. apply ok_pair_inj in H. subst r. apply C.
    + destruct (run_entry p w) as (w1 & E & _).
      unfold bind. rewrite E. unfold ret. intros H. apply ok_pair_inj in H.
      subst r. apply C.
  - intros Hw. destruct (run_entry p w) as (w1 & E & _).
    unfold generateReport, bind. rewrite Hw, E. eexists. eexists. reflexivity.
Qed.

(** X13.  How generateReport fails in a browser: every failure, whatever
    its kind, comes after the one exchange, is logged exactly once and is
    thrown again, and nothing is logged when it returns.  A failure of the
    transport is thrown as it is; a non-success answer is thrown as an error
    that carries the status and the text of the body ("Unknown error" when
    the body cannot be read); a success answer whose body cannot be read, or
    is not JSON, throws what [res.json()] throws; and a success answer whose
    body is the JSON text null makes the reading of its summary throw a
    TypeError, where getClarityInsights would return null. *)
Theorem report_failures (p : jsstring) (w : World) :
  has_window w = true ->
  (forall x w',
     generateReport p w = (Throw x, w') ->
     trace w'
     = trace w ++ [EvFetch (endpoint_request (api_url w) p);
                   fetch_error_logged]
     /\ exchanges w' = S (exchanges w))
  /\ (forall r w',
        generateReport p w = (Ok r, w') ->
        trace w' = trace w ++ [EvFetch (endpoint_request (api_url w) p)]
        /\ exchanges w' = S (exchanges w))
  /\ (reply (network w (exchanges w) (endpoint_request (api_url w) p)) = None ->
      exists w', generateReport p w = (Throw FetchFailed, w'))
  /\ (forall rep,
        reply (network w (exchanges w) (endpoint_request (api_url w) p))
        = Some rep ->
        reply_ok rep = false ->
        exists w',
          generateReport p w
          = (Throw (UnableToGenerateReport (reply_status rep)
                      match reply_body rep with
                      | Some t => t
                      | None => lit "Unknown error"
                      end), w')
          /\ trace w'
             = trace w ++ [EvFetch (endpoint_request (api_url w) p);
                           fetch_error_logged])
  /\ (forall rep,
        reply (network w (exchanges w) (endpoint_request (api_url w) p))
        = Some rep ->
        reply_ok rep = true -> reply_body rep = None ->
        exists w', generateReport p w = (Throw BodyReadFailed, w'))
  /\ (forall rep t,
        reply (network w (exchanges w) (endpoint_request (api_url w) p))
        = Some rep ->
        reply_ok rep = true -> reply_body rep = Some t ->
        JSON_parse t = Some VNull ->
        exists w',
          generateReport p w = (Throw TypeError, w')
          /\ trace w'
             = trace w ++ [EvFetch (endpoint_request (api_url w) p);
                           fetch_error_logged])
  /\ (forall rep t,
        reply (network w (exchanges w) (endpoint_request (api_url w) p))
        = Some rep ->
        reply_ok rep = true -> reply_body rep = Some t ->
        JSON_parse t = None ->
        exists w',
          generateReport p w = (Throw SyntaxError, w')
          /\ trace w'
             = trace w ++ [EvFetch (endpoint_request (api_url w) p);
                           fetch_error_logged]).
Proof.
  intros Hw. unfold generateReport. rewrite Hw.
  unfold report_from_endpoint, try_catch, bind, fetch, reply_json, reply_text,
    member, console, throw, ret.
  split; [|split; [|split; [|split; [|split; [|split]]]]].
  - intros x w'.
    destruct (reply (network w (exchanges w)
                       (endpoint_request (api_url w) p))) as [rep|].
    2:{ intros H. apply throw_pair_inj in H. subst w'.
        cbn. rewrite <- app_assoc. split; reflexivity. }
    destruct (reply_ok rep); cbn [negb].
    2:{ destruct (reply_body rep); intros H; apply throw_pair_inj in H;
          subst w'; cbn; rewrite <- app_assoc; split; reflexivity. }
    destruct (reply_body rep) as [t|].
    2:{ intros H. apply throw_pair_inj in H. subst w'.
        cbn. rewrite <- app_assoc. split; reflexivity. }
    destruct (JSON_parse t) as [data|].
    2:{ intros H. apply throw_pair_inj in H. subst w'.
        cbn. rewrite <- app_assoc. split; reflexivity. }
    destruct (nullish data); [|discriminate].
    intros H. apply throw_pair_inj in H. subst w'.
    cbn. rewrite <- app_assoc. split; reflexivity.
  - intros r w'.
    destruct (reply (network w (exchanges w)
                       (endpoint_request (api_url w) p))) as [rep|];
      [|discriminate].
    destruct (reply_ok rep); cbn [negb].
    2:{ destruct (reply_body rep); discriminate. }
    destruct (reply_body rep) as [t|]; [|discriminate].
    destruct (JSON_parse t) as [data|]; [|discriminate].
    destruct (nullish data); [discriminate|].
    intros H. apply ok_world_inj in H. subst w'. split; reflexivity.
  - intros ->. eexists. reflexivity.
  - intros rep -> Hok. rewrite Hok. cbn [negb].
    destruct (reply_body rep); (eexists; split; [reflexivity|]);
      cbn; rewrite <- app_assoc; reflexivity.
  - intros rep -> Hok Hb. rewrite Hok, Hb. cbn [negb].
    eexists. reflexivity.
  - intros rep t -> Hok Hb Hp. rewrite Hok, Hb, Hp. cbn [negb nullish].
    eexists. split; [reflexivity|]. cbn. rewrite <- app_assoc. reflexivity.
  - intros rep t -> Hok Hb Hp. rewrite Hok, Hb, Hp. cbn [negb].
    eexists. split; [reflexivity|]. cbn. rewrite <- app_assoc. reflexivity.
Qed.

(** A browser in front of an endpoint that answers 200 with the body null. *)
Lemma report_failures_witness :
  exists w',
    generateReport (lit "hi") (browser (answering 200 (lit "null")))
    = (Throw TypeError, w')
    /\ trace w'
       = [EvFetch (endpoint_request (lit "/api/diagnosis") (lit "hi"));
          fetch_error_logged].
Proof.
  destruct (@report_failures (lit "hi") (browser (answering 200 (lit "null")))
              eq_refl) as (_ & _ & _ & _ & _ & H & _).
  apply (H (mkReply 200 (Some (lit "null"))) (lit "null")); reflexivity.
Defined.

(* ================================================================== *)
(** * What a request to the endpoint costs upstream *)
(* ================================================================== *)

(** X14.  POST always answers, and it reaches the upstream service exactly
    once when the body parses, its prompt is a non-empty string and a
    credential is set, and not at all otherwise: a request that is answered
    400, a body that is not JSON and a prompt that is no string never cost
    an upstream call.  The environment and the network are left as they
    were. *)
Theorem post_upstream_calls (req : NextRequest) (w : World) :
  exists r w',
    POST req w = (Ok r, w')
    /\ exchanges w'
       = (if calls_upstream req w then S (exchanges w) else exchanges w)
    /\ env_GEMINI_API_KEY w' = env_GEMINI_API_KEY w
    /\ env_NEXT_PUBLIC_VERCEL_API_URL w' = env_NEXT_PUBLIC_VERCEL_API_URL w
    /\ network w' = network w.
Proof.
  rewrite POST_unfold. cbv zeta. unfold calls_upstream.
  destruct (JSON_parse (req_body req)) as [b|].
  2:{ eexists. eexists. split; [reflexivity|]. repeat split. }
  destruct (get b P_prompt) as [| |t|n|s|l|m];
    try (destruct (truthy _); eexists; eexists; (split; [reflexivity|]);
         destruct (credential w); repeat split).
  destruct s as [|c s]; cbn [truthy].
  { eexists. eexists. split; [reflexivity|].
    destruct (credential w); repeat split. }
  destruct (run_effects (c :: s)
              (add_event (EvConsole Log Site_processing_prompt)
                 (add_event (EvConsole Log Site_post_request) w)))
    as (e & w' & evs & E & _ & _ & X & K & U & _ & N).
  rewrite E. eexists. eexists. split; [reflexivity|].
  change (credential (add_event (EvConsole Log Site_processing_prompt)
                        (add_event (EvConsole Log Site_post_request) w)))
    with (credential w) in X.
  rewrite X. destruct (credential w); repeat split; assumption.
Qed.
